(** * octomap_server: the map loader and its height colouring

    A shallow embedding of [octomap_server/src/octomap_server.cpp]:
    [OctomapServer::heightMapColor], [OctomapServer::readMap] and the
    constructor, with the
    C++ [double] and [float] values modelled as IEEE-754 binary64 and
    binary32 numbers (the executable specification [SpecFloat] of the
    standard library, which the primitive floats of Rocq implement). *)

From Stdlib Require Import ZArith Lia Bool.
From Stdlib Require Import SpecFloat PrimFloat FloatOps.
From stdpp Require Import base list strings.

Local Open Scope Z_scope.

(** ** IEEE-754 arithmetic as the compiled program uses it *)

(** [double]: binary64, round to nearest even, no traps. *)
Module Double.

Definition prec : Z := 53.
Definition emax : Z := 1024.

Definition t : Type := spec_float.

(** A well-formed binary64 datum: mantissa of at most 53 bits, in
    canonical position, exponent in range.  Every value a C++ [double]
    can hold is of this kind. *)
Definition valid (x : t) : bool := valid_binary prec emax x.

Definition finite (x : t) : bool :=
  match x with
  | S754_zero _ | S754_finite _ _ _ => true
  | _ => false
  end.

(** A floating-point literal of the source text. *)
Definition lit (f : float) : t := Prim2SF f.

Definition add : t -> t -> t := SFadd prec emax.
Definition sub : t -> t -> t := SFsub prec emax.
Definition mul : t -> t -> t := SFmul prec emax.
Definition div : t -> t -> t := SFdiv prec emax.
Definition ltb : t -> t -> bool := SFltb.
Definition leb : t -> t -> bool := SFleb.

(** [std::max(a, b)] is [(a < b) ? b : a] and [std::min(a, b)] is
    [(b < a) ? b : a]; with a NaN in first position both return it. *)
Definition max (a b : t) : t := if ltb a b then b else a.
Definition min (a b : t) : t := if ltb b a then b else a.

(** [floor] of <cmath>: the largest integral value not above [x]; zeros,
    infinities and NaN are returned unchanged.  A finite [x] with a
    non-negative exponent is integral already. *)
Definition floor (x : t) : t :=
  match x with
  | S754_finite s m e =>
      if 0 <=? e then x
      else
        let q := Z.shiftr (cond_Zopp s (Zpos m)) (- e) in
        if q =? 0 then S754_zero s else binary_normalize prec emax q 0 false
  | _ => x
  end.

Definition INT_MIN : Z := -2147483648.
Definition INT_MAX : Z := 2147483647.

(** The integral part of a finite value, rounding toward zero
    ([Z.shiftl] by a negative amount shifts right). *)
Definition trunc (x : t) : option Z :=
  match x with
  | S754_zero _ => Some 0
  | S754_finite s m e => Some (cond_Zopp s (Z.shiftl (Zpos m) e))
  | _ => None
  end.

(** Conversion [double -> int] ([int(x)], or the implicit conversion of
    [i = floor(h)]).  The value is truncated toward zero.  When the
    truncated value does not fit a 32-bit [int], or [x] is a NaN or an
    infinity, the C++ standard gives the conversion no meaning; the
    model returns what the conversion instruction of x86-64
    ([cvttsd2si]) delivers in that case, the "integer indefinite" value
    [INT_MIN]. *)
Definition to_int (x : t) : Z :=
  match trunc x with
  | Some v => if (INT_MIN <=? v) && (v <=? INT_MAX) then v else INT_MIN
  | None => INT_MIN
  end.

(** Conversion [int -> double] (and [unsigned -> double]): exact. *)
Definition of_int (i : Z) : t := binary_normalize prec emax i 0 false.

(** [pow(2, i)] for an unsigned [i]: the power of two itself, which
    every binary64 [pow] returns exactly. *)
Definition pow2 (i : nat) : t := binary_normalize prec emax 1 (Z.of_nat i) false.

Definition zero : t := Eval vm_compute in lit 0.0.
Definition half : t := Eval vm_compute in lit 0.5.
Definition one : t := Eval vm_compute in lit 1.0.
Definition six : t := Eval vm_compute in lit 6.

End Double.

(** [float]: binary32, the type of the fields of [std_msgs::ColorRGBA]. *)
Module Single.

Definition prec : Z := 24.
Definition emax : Z := 128.

Definition t : Type := spec_float.

Definition valid (x : t) : bool := valid_binary prec emax x.

(** Conversion [double -> float] of an assignment such as
    [color.r = v]: rounding to the nearest binary32 value, overflow to
    an infinity; zeros, infinities and NaN keep their kind and sign. *)
Definition of_double (x : Double.t) : t :=
  match x with
  | S754_finite s m e => binary_round prec emax s m e
  | _ => x
  end.

Definition leb : t -> t -> bool := SFleb.

Definition zero : t := Eval vm_compute in of_double Double.zero.
Definition half : t := Eval vm_compute in of_double Double.half.
Definition one : t := Eval vm_compute in of_double Double.one.

End Single.

(** ** Messages *)

(** [std_msgs::ColorRGBA]: four [float32] fields. *)
Record ColorRGBA : Type := mkColorRGBA
  { r : Single.t; g : Single.t; b : Single.t; a : Single.t }.

(** [geometry_msgs::Point]: three [float64] fields. *)
Record Point : Type := mkPoint
  { x : Double.t; y : Double.t; z : Double.t }.

(** [octomap::OcTreeVolume] is [std::pair<point3d, double>]: the centre of
    a cube and its edge length.  The coordinates of a [point3d] are
    single-precision; every use below widens them to [double] first, which
    is exact, so the model holds the widened values. *)
Record OcTreeVolume : Type := mkVolume
  { first : Point; second : Double.t }.

(** What [readMap] asks of the [octomap::OcTree] it has loaded. *)
Record OcTree : Type := mkOcTree
  { getMetricMin : Point;
    getMetricMax : Point;
    getResolution : Double.t;
    getOccupied : list OcTreeVolume }.

(** A [ros::Time] instant, as a number of nanoseconds. *)
Definition ros_time : Type := Z.

(** The fields of [visualization_msgs::Marker] that the server writes;
    [type] and [action] hold the integer constants of the message. *)
Module Marker.

Definition CUBE_LIST : Z := 6.
Definition ADD : Z := 0.
Definition DELETE : Z := 2.

Record t : Type := mk
  { frame_id : string;
    stamp : ros_time;
    ns : string;
    id : Z;
    type : Z;
    action : Z;
    scale : Point;
    color : ColorRGBA;
    points : list Point;
    colors : list ColorRGBA }.

(** A value-initialised marker, as [resize] creates it. *)
Definition default : t :=
  {| frame_id := ""; stamp := 0; ns := ""; id := 0; type := 0; action := 0;
     scale := mkPoint Double.zero Double.zero Double.zero;
     color := mkColorRGBA Single.zero Single.zero Single.zero Single.zero;
     points := []; colors := [] |}.

Definition push_point (p : Point) (m : t) : t :=
  {| frame_id := frame_id m; stamp := stamp m; ns := ns m; id := id m;
     type := type m; action := action m; scale := scale m; color := color m;
     points := points m ++ [p]; colors := colors m |}.

Definition push_color (c : ColorRGBA) (m : t) : t :=
  {| frame_id := frame_id m; stamp := stamp m; ns := ns m; id := id m;
     type := type m; action := action m; scale := scale m; color := color m;
     points := points m; colors := colors m ++ [c] |}.

End Marker.

(** ** The server *)

(** The data members of [class OctomapServer] that [readMap] and
    [heightMapColor] read or write.  The node handle, the publishers, the
    service and the cached binary map [m_mapResponse] belong to the
    transport and carry no part of the computation below. *)
Record OctomapServer : Type := mkServer
  { m_occupiedCellsVis : list Marker.t;
    m_frameId : string;
    m_useHeightMap : bool;
    m_color : ColorRGBA;
    m_colorFactor : Double.t }.

(** [assert] ends the process when its condition is false. *)
Inductive outcome (A : Type) : Type :=
  | Done (a : A)
  | AssertionFailed.
Arguments Done {A} a.
Arguments AssertionFailed {A}.

#[global] Instance outcome_ret : MRet outcome := fun A a => Done a.

#[global] Instance outcome_bind : MBind outcome := fun A B k c =>
  match c with
  | Done a => k a
  | AssertionFailed => AssertionFailed
  end.

Definition assert (c : bool) : outcome unit :=
  if c then Done tt else AssertionFailed.

(** [OctomapServer::heightMapColor]. *)
Definition heightMapColor (h : Double.t) : ColorRGBA :=
  let a := Single.of_double Double.one in
  let s := Double.one in
  let v := Double.one in
  let h := Double.sub h (Double.floor h) in
  let h := Double.mul h Double.six in
  let i := Double.to_int (Double.floor h) in
  let f := Double.sub h (Double.of_int i) in
  let f := if Z.land i 1 =? 0 then Double.sub Double.one f else f in
  let m := Double.mul v (Double.sub Double.one s) in
  let n := Double.mul v (Double.sub Double.one (Double.mul s f)) in
  let rgb (r g b : Double.t) :=
    mkColorRGBA (Single.of_double r) (Single.of_double g) (Single.of_double b) a in
  match i with
  | 6 | 0 => rgb v n m
  | 1 => rgb n v m
  | 2 => rgb m v n
  | 3 => rgb m n v
  | 4 => rgb n m v
  | 5 => rgb v m n
  | _ => rgb Double.one Double.half Double.half
  end.

Section ReadMap.

(** [log2] of <cmath>, which the language leaves to the C library. *)
Variable log2 : Double.t -> Double.t.

(** [ros::Time::now()] at the [i]-th turn of the second loop. *)
Variable now : nat -> ros_time.

(** [int(log2(it->second / lowestRes) + 0.5)]. *)
Definition level (lowestRes : Double.t) (it : OcTreeVolume) : Z :=
  Double.to_int (Double.add (log2 (Double.div (second it) lowestRes)) Double.half).

(** Conversion [int -> unsigned]. *)
Definition to_unsigned (i : Z) : Z := i mod 2 ^ 32.

(** [idx >= 0 && unsigned(idx) < markers.size()]. *)
Definition level_ok (markers : list Marker.t) (idx : Z) : bool :=
  (0 <=? idx) && (to_unsigned idx <? Z.of_nat (length markers)).

(** The argument handed to [heightMapColor] for a cube centred at height [zc]. *)
Definition heightFraction (colorFactor minZ maxZ zc : Double.t) : Double.t :=
  Double.mul
    (Double.sub Double.one
       (Double.min
          (Double.max (Double.div (Double.sub zc minZ) (Double.sub maxZ minZ))
                      Double.zero)
          Double.one))
    colorFactor.

(** The state of the first loop: the markers and [numVoxels]. *)
Definition loop_state : Type := list Marker.t * Z.

(** One turn of the loop over [occupiedCells]. *)
Definition visit (srv : OctomapServer) (minZ maxZ lowestRes : Double.t)
    (st : loop_state) (it : OcTreeVolume) : outcome loop_state :=
  let '(markers, numVoxels) := st in
  let idx := level lowestRes it in
  _ ← assert (level_ok markers idx);
  let cubeCenter := mkPoint (x (first it)) (y (first it)) (z (first it)) in
  let markers := alter (Marker.push_point cubeCenter) (Z.to_nat idx) markers in
  let markers :=
    if m_useHeightMap srv then
      let h := heightFraction (m_colorFactor srv) minZ maxZ (z (first it)) in
      alter (Marker.push_color (heightMapColor h)) (Z.to_nat idx) markers
    else markers in
  Done (markers, (numVoxels + 1) mod 2 ^ 32).

Fixpoint visit_all (srv : OctomapServer) (minZ maxZ lowestRes : Double.t)
    (st : loop_state) (occupiedCells : list OcTreeVolume) : outcome loop_state :=
  match occupiedCells with
  | [] => Done st
  | it :: rest =>
      st' ← visit srv minZ maxZ lowestRes st it;
      visit_all srv minZ maxZ lowestRes st' rest
  end.

(** One turn of the loop over the markers. *)
Definition finish (srv : OctomapServer) (lowestRes : Double.t) (i : nat)
    (m : Marker.t) : Marker.t :=
  let size := Double.mul lowestRes (Double.pow2 i) in
  {| Marker.frame_id := m_frameId srv;
     Marker.stamp := now i;
     Marker.ns := "map";
     Marker.id := Z.of_nat i;
     Marker.type := Marker.CUBE_LIST;
     Marker.action :=
       if (0 <? length (Marker.points m))%nat then Marker.ADD else Marker.DELETE;
     Marker.scale := mkPoint size size size;
     Marker.color := m_color srv;
     Marker.points := Marker.points m;
     Marker.colors := Marker.colors m |}.

Definition finish_all (srv : OctomapServer) (lowestRes : Double.t)
    (markers : list Marker.t) : list Marker.t :=
  foldl (fun ms i => alter (finish srv lowestRes i) i ms) markers
        (seq 0 (length markers)).

(** [OctomapServer::readMap], from the loaded tree on.  The calls of
    [reserve] only set capacities aside and the final [ROS_INFO] only
    prints; neither shows in the result. *)
Definition readMap (srv : OctomapServer) (map : OcTree) : outcome OctomapServer :=
  let minZ := z (getMetricMin map) in
  let maxZ := z (getMetricMax map) in
  let markers := resize 16 Marker.default (m_occupiedCellsVis srv) in
  let lowestRes := getResolution map in
  let occupiedCells := getOccupied map in
  '(markers, numVoxels) ←
    visit_all srv minZ maxZ lowestRes (markers, 0) occupiedCells;
  Done {| m_occupiedCellsVis := finish_all srv lowestRes markers;
          m_frameId := m_frameId srv;
          m_useHeightMap := m_useHeightMap srv;
          m_color := m_color srv;
          m_colorFactor := m_colorFactor srv |}.


End ReadMap.

(** ** The behaviour in the words of the specification *)

(** The first step of the colour function: [h - floor(h)]. *)
Definition wrap (h : Double.t) : Double.t := Double.sub h (Double.floor h).

(** The three ingredients of a colour: the value [1], [n] and [m]. *)
Inductive channel : Type := chV | chN | chM.

(** The sector table: which ingredient goes to red, green and blue. *)
Definition sector_table : list (Z * (channel * channel * channel)) :=
  [ (0, (chV, chN, chM)); (6, (chV, chN, chM)); (1, (chN, chV, chM));
    (2, (chM, chV, chN)); (3, (chM, chN, chV)); (4, (chN, chM, chV));
    (5, (chV, chM, chN)) ].

Definition sector (i : Z) : option (channel * channel * channel) :=
  snd <$> find (fun e => fst e =? i) sector_table.

Definition rgba (r g b a : Double.t) : ColorRGBA :=
  mkColorRGBA (Single.of_double r) (Single.of_double g) (Single.of_double b)
              (Single.of_double a).

(** The colour returned when the sector is none of 0..6. *)
Definition fallbackColor : ColorRGBA :=
  rgba Double.one Double.half Double.half Double.one.

(** [colorForHeight], step by step as the specification describes it. *)
Definition colorForHeight (hFraction : Double.t) : ColorRGBA :=
  let h := wrap hFraction in
  let h6 := Double.mul h Double.six in
  let i := Double.to_int (Double.floor h6) in
  let f := Double.sub h6 (Double.of_int i) in
  let f := if Z.even i then Double.sub Double.one f else f in
  let m := Double.zero in
  let n := Double.sub Double.one f in
  let pick (c : channel) :=
    match c with chV => Double.one | chN => n | chM => m end in
  match sector i with
  | Some (c1, c2, c3) => rgba (pick c1) (pick c2) (pick c3) Double.one
  | None => fallbackColor
  end.

(** The sector fraction [f = h*6 - i], inverted when [i] is even. *)
Definition fraction (h6 : Double.t) (i : Z) : Double.t :=
  let f := Double.sub h6 (Double.of_int i) in
  if Z.even i then Double.sub Double.one f else f.

(** [clamp(x, lo, hi)]. *)
Definition clamp (x lo hi : Double.t) : Double.t :=
  if Double.ltb x lo then lo else if Double.ltb hi x then hi else x.

(** [hFraction = (1 - clamp((z - zMin)/(zMax - zMin), 0, 1)) * colorFactor]. *)
Definition hFraction (zc zMin zMax colorFactor : Double.t) : Double.t :=
  Double.mul
    (Double.sub Double.one
       (clamp (Double.div (Double.sub zc zMin) (Double.sub zMax zMin))
              Double.zero Double.one))
    colorFactor.

(** A colour component between [0] and [1], in [float] comparisons. *)
Definition in_unit_interval (c : Single.t) : Prop :=
  Single.leb Single.zero c = true /\ Single.leb c Single.one = true.

(** The centre of a cube as a [geometry_msgs::Point]. *)
Definition center (it : OcTreeVolume) : Point :=
  mkPoint (x (first it)) (y (first it)) (z (first it)).

(** The colour a cube receives when height colouring is on. *)
Definition colorOf (srv : OctomapServer) (minZ maxZ : Double.t)
    (it : OcTreeVolume) : ColorRGBA :=
  heightMapColor (heightFraction (m_colorFactor srv) minZ maxZ (z (first it))).

(** The cubes of a list whose level index is [k], in their order. *)
Definition bucket (log2 : Double.t -> Double.t) (lowestRes : Double.t) (k : nat)
    (cells : list OcTreeVolume) : list OcTreeVolume :=
  filter (fun it => level log2 lowestRes it = Z.of_nat k) cells.

(** A marker after the cubes [its] have been appended to it. *)
Definition grow (srv : OctomapServer) (minZ maxZ : Double.t)
    (its : list OcTreeVolume) (m : Marker.t) : Marker.t :=
  {| Marker.frame_id := Marker.frame_id m; Marker.stamp := Marker.stamp m;
     Marker.ns := Marker.ns m; Marker.id := Marker.id m;
     Marker.type := Marker.type m; Marker.action := Marker.action m;
     Marker.scale := Marker.scale m; Marker.color := Marker.color m;
     Marker.points := Marker.points m ++ map center its;
     Marker.colors :=
       Marker.colors m ++
       (if m_useHeightMap srv then map (colorOf srv minZ maxZ) its else []) |}.

(** A cube passes the assertion of the first loop of a 16-marker array. *)
Definition in_range (log2 : Double.t -> Double.t) (lowestRes : Double.t)
    (it : OcTreeVolume) : Prop :=
  0 <= level log2 lowestRes it < 16.

(** ** The node's parameters and its constructor *)





(** ** Further notions used in the statements *)

(** The number of cube centres held by a marker array. *)
Definition total_points (ms : list Marker.t) : nat :=
  sum_list (map (fun m => length (Marker.points m)) ms).

(** Opaque red, the colour of the hue 0. *)
Definition red : ColorRGBA :=
  mkColorRGBA Single.one Single.zero Single.zero Single.one.

(** What a channel of the sector table stands for, given [n]. *)
Definition ingredient (n : Double.t) (c : channel) : Double.t :=
  match c with
  | chV => Double.one
  | chN => n
  | chM => Double.zero
  end.

(** A [double] between [0] and [1], in [double] comparisons. *)
Definition in_unit_range (d : Double.t) : Prop :=
  Double.leb Double.zero d = true /\ Double.leb d Double.one = true.

(** The colour of a cube when both bounds are the height [zMin]: the
    ratio [(z - zMin) / 0] is a NaN for a cube at that height, [-inf]
    below it and [+inf] above it. *)
Definition degenerateColor (srv : OctomapServer) (zMin : Double.t)
    (it : OcTreeVolume) : ColorRGBA :=
  match Double.sub (z (first it)) zMin with
  | S754_zero _ | S754_nan => fallbackColor
  | S754_finite true _ _ | S754_infinity true =>
      heightMapColor (Double.mul Double.one (m_colorFactor srv))
  | S754_finite false _ _ | S754_infinity false =>
      heightMapColor (Double.mul Double.zero (m_colorFactor srv))
  end.

(** ** Auxiliary notions for rounding *)

(** The record left by [n >= 1] single right shifts of a nonnegative [m]:
    the quotient, the last bit shifted out, and whether any bit before it
    was set. *)
Definition shr_spec (m n : Z) : shr_record :=
  Build_shr_record (m / 2 ^ n) (Z.testbit m (n - 1)) (negb (m mod 2 ^ (n - 1) =? 0)).

(** The float built from a rounded mantissa. *)
Definition pack (prec emax : Z) (s : bool) (m e : Z) : spec_float :=
  match m with
  | Z0 => S754_zero s
  | Zpos p => if e <=? emax - prec then S754_finite s p e else S754_infinity s
  | Zneg _ => S754_nan
  end.

(** A zero, or a positive canonical number not above one: its exponent is
    below that of [1], or it is [1] itself. *)
Definition unit01 (prec emax : Z) (x : spec_float) : bool :=
  match x with
  | S754_zero _ => true
  | S754_finite false m e =>
      bounded prec emax m e &&
      ((e <? 1 - prec) || ((e =? 1 - prec) && (Zpos m =? 2 ^ (prec - 1))))
  | _ => false
  end.

(** The number one in canonical form. *)
Definition SFone_canon (prec : Z) : spec_float :=
  S754_finite false (Z.to_pos (2 ^ (prec - 1))) (1 - prec).

(** The exponent of a finite number ([0] for the other values). *)
Definition exponent (d : spec_float) : Z :=
  match d with
  | S754_finite _ _ e => e
  | _ => 0
  end.

(** The exact value of a finite number, counted in units of [2^ez]
    (for [ez] at most its exponent); [0] for the other values. *)
Definition scaled (d : spec_float) (ez : Z) : Z :=
  match d with
  | S754_finite s m e => cond_Zopp s (Zpos m) * 2 ^ (e - ez)
  | _ => 0
  end.

(** [x + y] is computed without rounding: the sum is finite and, in
    units of the smallest of the three exponents, equals the sum of the
    operands exactly. *)
Definition add_is_exact (a b : Double.t) : bool :=
  let c := Double.add a b in
  let ez := Z.min (Z.min (exponent a) (exponent b)) (exponent c) in
  Double.finite c && (scaled c ez =? scaled a ez + scaled b ez).

(** ** Sample data *)

(** A [log2] that is exact on the powers of two and returns the binary
    exponent elsewhere; it stands for the C library's where a concrete
    function is needed. *)
Definition ilog2 (d : Double.t) : Double.t :=
  match d with
  | S754_finite false m e => Double.of_int (Zpos (digits2_pos m) + e - 1)
  | S754_zero _ => S754_infinity true
  | S754_infinity false => d
  | _ => S754_nan
  end.

Definition clock (i : nat) : ros_time := Z.of_nat i.

Definition d0_1 : Double.t := Eval vm_compute in Double.lit 0.1.
Definition d0_8 : Double.t := Eval vm_compute in Double.lit 0.8.
Definition d5 : Double.t := Eval vm_compute in Double.lit 5.
Definition d10 : Double.t := Eval vm_compute in Double.lit 10.

(** [-2^-70], a tiny negative height. *)
Definition tiny_negative : Double.t := Eval vm_compute in Double.lit (-0x1p-70).

(** [0.75], which adding [1.0] does not round. *)
Definition half_quarter : Double.t := Eval vm_compute in Double.lit 0.75.

(** [1.5 * 2^-52]. *)
Definition three_halves_ulp : Double.t := Eval vm_compute in Double.lit 0x1.8p-52.

Definition cube (cx cy cz size : Double.t) : OcTreeVolume :=
  mkVolume (mkPoint cx cy cz) size.

(** The configuration the node starts with when no parameter is set. *)
Definition default_server : OctomapServer :=
  {| m_occupiedCellsVis := [];
     m_frameId := "/map";
     m_useHeightMap := true;
     m_color := rgba Double.zero Double.zero Double.one Double.one;
     m_colorFactor := d0_8 |}.

(** Four cubes of edge [r], [r], [2r] and [4r] for [r = 0.1], between the
    heights 0 and 10. *)
Definition sample_tree : OcTree :=
  {| getMetricMin := mkPoint Double.zero Double.zero Double.zero;
     getMetricMax := mkPoint d10 d10 d10;
     getResolution := d0_1;
     getOccupied :=
       [ cube Double.zero Double.zero Double.zero d0_1;
         cube Double.one Double.zero d10 d0_1;
         cube d5 Double.zero d5 (Double.mul d0_1 (Double.pow2 1));
         cube d5 d5 Double.one (Double.mul d0_1 (Double.pow2 2)) ] |}.

(** A tree without occupied cubes. *)
Definition empty_tree : OcTree :=
  {| getMetricMin := mkPoint Double.zero Double.zero Double.zero;
     getMetricMax := mkPoint Double.zero Double.zero Double.zero;
     getResolution := d0_1;
     getOccupied := [] |}.

(** A cube [2^16] times the resolution: the root of a tree of depth 16,
    one level above the 16 markers. *)
Definition root_cube : OcTreeVolume :=
  cube Double.zero Double.zero Double.zero (Double.mul d0_1 (Double.pow2 16)).

(** A tree whose second cube is such a root cube. *)
Definition broken_tree : OcTree :=
  {| getMetricMin := mkPoint Double.zero Double.zero Double.zero;
     getMetricMax := mkPoint d10 d10 d10;
     getResolution := d0_1;
     getOccupied :=
       [ cube Double.zero Double.zero Double.zero d0_1;
         root_cube;
         cube d5 Double.zero d5 d0_1 ] |}.

(** A flat tree: all cubes and both bounds at height 5. *)
Definition flat_tree : OcTree :=
  {| getMetricMin := mkPoint Double.zero Double.zero d5;
     getMetricMax := mkPoint d10 d10 d5;
     getResolution := d0_1;
     getOccupied :=
       [ cube Double.zero Double.zero d5 d0_1;
         cube Double.one Double.zero d5 d0_1 ] |}.


(** A cube of half the resolution, and one of a quarter. *)
Definition half_cube : OcTreeVolume :=
  cube Double.zero Double.zero Double.one (Double.mul d0_1 Double.half).

Definition quarter_cube : OcTreeVolume :=
  cube Double.zero Double.zero Double.one
       (Double.mul (Double.mul d0_1 Double.half) Double.half).

(** The sample tree with resolution zero. *)
Definition zero_res_tree : OcTree :=
  {| getMetricMin := getMetricMin sample_tree;
     getMetricMax := getMetricMax sample_tree;
     getResolution := Double.zero;
     getOccupied := getOccupied sample_tree |}.


(** A tree with both bounds at height 5 and cubes below, at and above
    that height. *)
Definition level_tree : OcTree :=
  {| getMetricMin := mkPoint Double.zero Double.zero d5;
     getMetricMax := mkPoint d10 d10 d5;
     getResolution := d0_1;
     getOccupied :=
       [ cube Double.zero Double.zero Double.one d0_1;
         cube Double.one Double.zero d5 d0_1;
         cube d5 Double.zero d10 d0_1 ] |}.

(** * Proofs *)

(** ** Digits *)

Lemma digits2_pos_size (p : positive) : digits2_pos p = Pos.size p.
Proof. induction p as [p IH|p IH|]; cbn; now rewrite ?IH. Qed.

Lemma digits2_log2 (p : positive) : Zpos (digits2_pos p) = Z.log2 (Zpos p) + 1.
Proof.
  rewrite digits2_pos_size. destruct p as [p|p|]; cbn; lia.
Qed.

(** [digits2_pos p] is the number of binary digits of [p]. *)
Lemma digits2_bounds (p : positive) :
  2 ^ (Zpos (digits2_pos p) - 1) <= Zpos p < 2 ^ Zpos (digits2_pos p).
Proof.
  rewrite digits2_log2. replace (Z.log2 (Zpos p) + 1 - 1) with (Z.log2 (Zpos p)) by lia.
  apply Z.log2_spec. lia.
Qed.

Lemma digits2_unique (p : positive) (d : Z) :
  2 ^ (d - 1) <= Zpos p < 2 ^ d -> Zpos (digits2_pos p) = d.
Proof.
  intros H. rewrite digits2_log2.
  assert (0 < d).
  { destruct (Z.ltb_spec 0 d) as [|Hd]; [assumption|].
    assert (2 ^ d <= 1); [|lia].
    destruct (Z.eq_dec d 0) as [->|]; [reflexivity|].
    rewrite Z.pow_neg_r by lia. lia. }
  rewrite (Z.log2_unique (Zpos p) (d - 1)); [lia|lia|].
  replace (Z.succ (d - 1)) with d by lia. exact H.
Qed.

Lemma digits2_le (p : positive) (d : Z) :
  0 <= d -> Zpos p < 2 ^ d -> Zpos (digits2_pos p) <= d.
Proof.
  intros Hd H. pose proof (digits2_bounds p) as [B _].
  destruct (Z.leb_spec (Zpos (digits2_pos p)) d) as [|G]; [assumption|].
  assert (2 ^ d <= 2 ^ (Zpos (digits2_pos p) - 1)) by (apply Z.pow_le_mono_r; lia).
  lia.
Qed.

(** ** Shifting right with round and sticky bits *)

(** The iterator of [SpecFloat], as an iteration over [nat]. *)
Lemma iter_pos_nat {A : Type} (f : A -> A) (p : positive) (a : A) :
  SpecFloat.iter_pos f p a = Nat.iter (Pos.to_nat p) f a.
Proof.
  revert a. induction p as [p IH|p IH|]; intros a; cbn [SpecFloat.iter_pos].
  - rewrite !IH, <- Nat.iter_add, <- Nat.iter_succ_r. f_equal. lia.
  - rewrite !IH, <- Nat.iter_add. f_equal. lia.
  - reflexivity.
Qed.

(** One right shift: halve, remember the bit shifted out, and
    accumulate the earlier ones in the sticky bit. *)
Lemma shr_1_nonneg (m : Z) (r s : bool) :
  0 <= m ->
  shr_1 (Build_shr_record m r s) = Build_shr_record (m / 2) (Z.odd m) (r || s).
Proof.
  intros Hm. destruct m as [|p|p]; [reflexivity| |lia].
  destruct p as [p|p|]; cbn [shr_1].
  - rewrite Pos2Z.inj_xI. f_equal.
    apply Z.div_unique with 1; lia.
  - rewrite Pos2Z.inj_xO. f_equal.
    apply Z.div_unique with 0; lia.
  - reflexivity.
Qed.

Lemma shr_iter_spec (m : Z) (k : nat) :
  0 <= m ->
  Nat.iter (S k) shr_1 (Build_shr_record m false false) = shr_spec m (Z.of_nat (S k)).
Proof.
  intros Hm. induction k as [|k IH].
  - cbn [Nat.iter]. rewrite shr_1_nonneg by assumption. unfold shr_spec.
    change (Z.of_nat 1) with 1. cbn [Z.sub Z.add Z.opp Z.pos_sub].
    rewrite Z.pow_1_r, Z.pow_0_r, Z.mod_1_r. cbn. now rewrite Z.bit0_odd.
  - change (Nat.iter (S (S k)) shr_1 ?x) with (shr_1 (Nat.iter (S k) shr_1 x)).
    rewrite IH. unfold shr_spec.
    set (n := Z.of_nat (S k)). assert (1 <= n) by lia.
    replace (Z.of_nat (S (S k))) with (n + 1) by lia.
    replace (n + 1 - 1) with n by lia.
    assert (0 < 2 ^ n) by (apply Z.pow_pos_nonneg; lia).
    assert (0 < 2 ^ (n - 1)) by (apply Z.pow_pos_nonneg; lia).
    rewrite shr_1_nonneg by (apply Z.div_pos; lia). f_equal.
    + rewrite Z.pow_add_r, Z.pow_1_r by lia. rewrite Z.div_div by lia. reflexivity.
    + rewrite Z.testbit_odd, Z.shiftr_div_pow2 by lia. reflexivity.
    + replace (2 ^ n) with (2 ^ (n - 1) * 2).
      2:{ rewrite <- (Z.pow_1_r 2) at 2. rewrite <- Z.pow_add_r by lia. f_equal; lia. }
      rewrite Z.rem_mul_r by lia.
      rewrite (Z.testbit_odd m (n - 1)), Z.shiftr_div_pow2 by lia.
      set (a := m / 2 ^ (n - 1)). set (b := m mod 2 ^ (n - 1)).
      assert (0 <= b) by (apply Z.mod_pos_bound; lia).
      rewrite (Zmod_odd a). destruct (Z.odd a); cbn [orb].
      * destruct (Z.eqb_spec (b + 2 ^ (n - 1) * 1) 0); [lia|reflexivity].
      * now rewrite Z.mul_0_r, Z.add_0_r.
Qed.

(** [p] right shifts of an exact mantissa. *)
Lemma shr_pos_spec (m : Z) (p : positive) :
  0 <= m ->
  SpecFloat.iter_pos shr_1 p (Build_shr_record m false false) = shr_spec m (Zpos p).
Proof.
  intros Hm. rewrite iter_pos_nat.
  destruct (Pos2Nat.is_succ p) as [k Hk]. rewrite Hk, shr_iter_spec by assumption.
  f_equal. lia.
Qed.

Lemma round_nearest_even_cases (m : Z) (l : location) :
  round_nearest_even m l = m \/ round_nearest_even m l = m + 1.
Proof.
  destruct l as [|[| |]]; cbn; auto. destruct (Z.even m); auto.
Qed.

(** Shifting out zeros only leaves an exact record. *)
Lemma shr_spec_exact (m n : Z) :
  1 <= n -> m mod 2 ^ n = 0 -> loc_of_shr_record (shr_spec m n) = loc_Exact.
Proof.
  intros Hn Hm. unfold shr_spec, loc_of_shr_record.
  assert (0 < 2 ^ (n - 1)) by (apply Z.pow_pos_nonneg; lia).
  assert (E : 2 ^ n = 2 ^ (n - 1) * 2).
  { rewrite <- (Z.pow_1_r 2) at 3. rewrite <- Z.pow_add_r by lia. f_equal; lia. }
  rewrite E, Z.rem_mul_r in Hm by lia.
  pose proof (Z.mod_pos_bound m (2 ^ (n - 1))).
  pose proof (Z.mod_pos_bound (m / 2 ^ (n - 1)) 2).
  assert (m mod 2 ^ (n - 1) = 0) as -> by nia.
  assert (O : (m / 2 ^ (n - 1)) mod 2 = 0) by nia.
  rewrite Z.testbit_odd, Z.shiftr_div_pow2 by lia.
  rewrite Zmod_odd in O. destruct (Z.odd _); [discriminate|reflexivity].
Qed.

(** ** Shifts and digits *)

(** [shl_align]: shifting the mantissa left to a smaller exponent. *)
Lemma iter_xO (p d : positive) : Zpos (Pos.iter xO p d) = Zpos p * 2 ^ Zpos d.
Proof.
  change (Pos.iter xO p d) with (shift_pos d p).
  rewrite shift_pos_correct. change (2 ^ Zpos d) with (Z.pow_pos 2 d). lia.
Qed.

Lemma digits2_shift (p q : positive) (k : Z) :
  0 <= k -> Zpos q = Zpos p * 2 ^ k ->
  Zpos (digits2_pos q) = Zpos (digits2_pos p) + k.
Proof.
  intros Hk Hq. apply digits2_unique. rewrite Hq.
  pose proof (digits2_bounds p) as [Lo Hi].
  assert (0 < 2 ^ k) by (apply Z.pow_pos_nonneg; lia).
  replace (Zpos (digits2_pos p) + k - 1) with (Zpos (digits2_pos p) - 1 + k) by lia.
  rewrite !Z.pow_add_r by lia. nia.
Qed.

Lemma digits2_ge (p : positive) (k : Z) :
  0 <= k -> 2 ^ k <= Zpos p -> k + 1 <= Zpos (digits2_pos p).
Proof.
  intros Hk H. pose proof (digits2_bounds p) as [_ Hi].
  destruct (Z.leb_spec (k + 1) (Zpos (digits2_pos p))) as [|G]; [assumption|].
  assert (2 ^ Zpos (digits2_pos p) <= 2 ^ k) by (apply Z.pow_le_mono_r; lia). lia.
Qed.

Lemma shl_align_fst (m : positive) (e e' : Z) :
  e' <= e -> Zpos (fst (shl_align m e e')) = Zpos m * 2 ^ (e - e').
Proof.
  intros H. unfold shl_align. destruct (e' - e) as [|d|d] eqn:E; cbn [fst]; try lia.
  - replace (e - e') with 0 by lia. lia.
  - rewrite iter_xO. do 2 f_equal. lia.
Qed.

(** ** Rounding in a format *)

Section Format.

Variables prec emax : Z.
Hypothesis Hprec : 2 <= prec.
Hypothesis Hemax : prec < emax.

#[local] Set Default Proof Using "Hprec Hemax".

Local Abbreviation emin := (SpecFloat.emin prec emax).
Local Abbreviation fexp := (SpecFloat.fexp prec emax).

Lemma emin_le : emin <= - prec.
Proof. unfold SpecFloat.emin. lia. Qed.

Lemma fexp_ge_emin (v : Z) : emin <= fexp v.
Proof. unfold SpecFloat.fexp. lia. Qed.

(** The first shift of [binary_round_aux], when there are digits to
    shift out: the mantissa is divided by [2^(e1 - E)]. *)
Lemma shr_fexp_spec (M : positive) (E : Z) :
  let e1 := fexp (Zpos (digits2_pos M) + E) in
  E <= e1 ->
  exists mrs,
    shr_fexp prec emax (Zpos M) E loc_Exact = (mrs, e1) /\
    shr_m mrs = Zpos M / 2 ^ (e1 - E) /\
    (Zpos M mod 2 ^ (e1 - E) = 0 -> loc_of_shr_record mrs = loc_Exact).
Proof.
  intros e1 Hle. unfold shr_fexp, shr. cbn [Zdigits2 shr_record_of_loc]. fold e1.
  destruct (e1 - E) as [|p|p] eqn:En; [| |lia].
  - eexists. split; [f_equal; lia|]. cbn [shr_m]. split; [|reflexivity].
    now rewrite Z.pow_0_r, Z.div_1_r.
  - rewrite shr_pos_spec by lia. eexists. split; [f_equal; lia|].
    split; [reflexivity|]. intros H. apply shr_spec_exact; [lia|assumption].
Qed.

Lemma shr_fexp_noop (m e : Z) :
  fexp (Zdigits2 m + e) <= e ->
  shr_fexp prec emax m e loc_Exact = (Build_shr_record m false false, e).
Proof.
  intros H. unfold shr_fexp, shr. cbn [shr_record_of_loc].
  destruct (fexp (Zdigits2 m + e) - e) eqn:En; try reflexivity. lia.
Qed.

(** [binary_round_aux] on an exact input: the mantissa is divided by
    [2^(e1 - E)] and rounded to [m1] or [m1 + 1]; a mantissa that
    reaches [2^prec] is renormalised to [2^(prec-1)] one exponent up. *)
Lemma bra_spec (s : bool) (M : positive) (E : Z) :
  let e1 := fexp (Zpos (digits2_pos M) + E) in
  let m1 := Zpos M / 2 ^ (e1 - E) in
  E <= e1 ->
  exists m2,
    (m2 = m1 \/ m2 = m1 + 1) /\
    (Zpos M mod 2 ^ (e1 - E) = 0 -> m2 = m1) /\
    0 <= m1 < 2 ^ prec /\
    binary_round_aux prec emax s (Zpos M) E loc_Exact =
      (if m2 =? 2 ^ prec then pack prec emax s (2 ^ (prec - 1)) (e1 + 1) else pack prec emax s m2 e1).
Proof.
  intros e1 m1 Hle.
  destruct (shr_fexp_spec M E Hle) as (mrs & E1 & Hm & Hex). fold e1 in E1, Hm, Hex.
  fold m1 in Hm.
  set (d := Zpos (digits2_pos M)) in *.
  pose proof (digits2_bounds M) as [Dlo Dhi]. fold d in Dlo, Dhi.
  assert (Hd : 0 < d) by (unfold d; lia).
  assert (Hpow : 0 < 2 ^ (e1 - E)) by (apply Z.pow_pos_nonneg; lia).
  assert (Hm1 : 0 <= m1 < 2 ^ prec).
  { split; [apply Z.div_pos; lia|].
    apply Z.div_lt_upper_bound; [lia|].
    rewrite <- Z.pow_add_r by lia.
    assert (2 ^ d <= 2 ^ (e1 - E + prec)); [|lia].
    apply Z.pow_le_mono_r; [lia|]. unfold e1, SpecFloat.fexp. lia. }
  set (m2 := round_nearest_even (shr_m mrs) (loc_of_shr_record mrs)).
  exists m2.
  assert (C : m2 = m1 \/ m2 = m1 + 1).
  { unfold m2. rewrite Hm. apply round_nearest_even_cases. }
  split; [exact C|]. split.
  { intros H. unfold m2. rewrite (Hex H), Hm. reflexivity. }
  split; [exact Hm1|].
  unfold binary_round_aux. rewrite E1. fold m2.
  assert (P2 : 0 < 2 ^ prec) by (apply Z.pow_pos_nonneg; lia).
  destruct (Z.eqb_spec m2 (2 ^ prec)) as [Ecarry|Hnc].
  - (* carry: one more shift *)
    unfold shr_fexp, shr. cbn [shr_record_of_loc].
    assert (Zdigits2 m2 = prec + 1) as ->.
    { rewrite Ecarry. destruct (2 ^ prec) as [|q|q] eqn:Eq; try lia.
      cbn [Zdigits2]. apply digits2_unique. rewrite <- Eq.
      replace (prec + 1 - 1) with prec by lia. split; [lia|].
      rewrite Z.pow_add_r, Z.pow_1_r; lia. }
    assert (fexp (prec + 1 + e1) - e1 = 1) as ->.
    { pose proof (fexp_ge_emin (d + E)). fold e1 in H. unfold SpecFloat.fexp. lia. }
    cbn [SpecFloat.iter_pos]. rewrite Ecarry. rewrite shr_1_nonneg by lia.
    cbn [shr_m].
    replace (2 ^ prec / 2) with (2 ^ (prec - 1)).
    2:{ replace prec with (prec - 1 + 1) at 2 by lia.
        rewrite Z.pow_add_r, Z.pow_1_r by lia. now rewrite Z.div_mul by lia. }
    unfold pack. destruct (2 ^ (prec - 1)); reflexivity.
  - rewrite shr_fexp_noop; [reflexivity|].
    destruct m2 as [|q|q] eqn:Eq; cbn [Zdigits2].
    + pose proof (fexp_ge_emin (d + E)). fold e1 in H. unfold SpecFloat.fexp. lia.
    + assert (Zpos (digits2_pos q) <= prec) by (apply digits2_le; lia).
      pose proof (fexp_ge_emin (d + E)). fold e1 in H0. unfold SpecFloat.fexp. lia.
    + lia.
Qed.


(** The rounded mantissa is in canonical position. *)
Lemma canonical_rounded (M : positive) (E m2 : Z) :
  let e1 := fexp (Zpos (digits2_pos M) + E) in
  let m1 := Zpos M / 2 ^ (e1 - E) in
  E <= e1 -> m2 = m1 \/ m2 = m1 + 1 -> 0 < m2 < 2 ^ prec ->
  canonical_mantissa prec emax (Z.to_pos m2) e1 = true.
Proof.
  intros e1 m1 Hle C Hm2. unfold canonical_mantissa. apply Z.eqb_eq.
  set (d := Zpos (digits2_pos M)) in *.
  pose proof (digits2_bounds M) as [Dlo Dhi]. fold d in Dlo, Dhi.
  assert (Hd : 0 < d) by (unfold d; lia).
  assert (Hq : Zpos (digits2_pos (Z.to_pos m2)) <= prec).
  { apply digits2_le; [lia|]. rewrite Z2Pos.id; lia. }
  pose proof (fexp_ge_emin (d + E)) as Hge. fold e1 in Hge.
  destruct (Z.eq_dec e1 emin) as [Ee|Ne].
  - unfold SpecFloat.fexp. lia.
  - assert (He1 : e1 = d + E - prec) by (unfold e1, SpecFloat.fexp in *; lia).
    assert (Hm1 : 2 ^ (prec - 1) <= m1).
    { unfold m1. rewrite He1. replace (d + E - prec - E) with (d - prec) by lia.
      apply Z.div_le_lower_bound; [apply Z.pow_pos_nonneg; lia|].
      rewrite <- Z.pow_add_r by lia.
      replace (d - prec + (prec - 1)) with (d - 1) by lia. exact Dlo. }
    assert (Zpos (digits2_pos (Z.to_pos m2)) = prec) as ->.
    { apply digits2_unique. rewrite Z2Pos.id; lia. }
    unfold SpecFloat.fexp. lia.
Qed.

Lemma canonical_carry (e : Z) :
  emin <= e ->
  canonical_mantissa prec emax (Z.to_pos (2 ^ (prec - 1))) (e + 1) = true.
Proof.
  intros He. unfold canonical_mantissa. apply Z.eqb_eq.
  assert (0 < 2 ^ (prec - 1)) by (apply Z.pow_pos_nonneg; lia).
  assert (Zpos (digits2_pos (Z.to_pos (2 ^ (prec - 1)))) = prec) as ->.
  { apply digits2_unique. rewrite Z2Pos.id by lia. split; [lia|].
    apply Z.pow_lt_mono_r; lia. }
  unfold SpecFloat.fexp. lia.
Qed.

Lemma pack_pos (s : bool) (m e : Z) :
  0 < m -> e <= emax - prec -> pack prec emax s m e = S754_finite s (Z.to_pos m) e.
Proof.
  intros Hm He. unfold pack. destruct m as [|p|p]; try lia.
  now rewrite (proj2 (Z.leb_le e (emax - prec))).
Qed.

Lemma pack_valid (s : bool) (m e : Z) :
  0 <= m -> (0 < m -> canonical_mantissa prec emax (Z.to_pos m) e = true) ->
  valid_binary prec emax (pack prec emax s m e) = true.
Proof.
  intros Hm Hc. unfold pack. destruct m as [|p|p]; [reflexivity| |lia].
  destruct (Z.leb_spec e (emax - prec)); [|reflexivity].
  pose proof (Hc ltac:(lia)) as Hc'. cbn [Z.to_pos] in Hc'.
  cbn [valid_binary]. unfold bounded. rewrite Hc'. cbn. now apply Z.leb_le.
Qed.

Lemma bra_valid (s : bool) (M : positive) (E : Z) :
  E <= fexp (Zpos (digits2_pos M) + E) ->
  valid_binary prec emax (binary_round_aux prec emax s (Zpos M) E loc_Exact) = true.
Proof.
  intros Hle. destruct (bra_spec s M E Hle) as (m2 & C & _ & Hm1 & ->).
  assert (0 < 2 ^ (prec - 1)) by (apply Z.pow_pos_nonneg; lia).
  destruct (Z.eqb_spec m2 (2 ^ prec)).
  - apply pack_valid; [lia|]. intros _. apply canonical_carry, fexp_ge_emin.
  - apply pack_valid; [lia|]. intros Hpos.
    apply (canonical_rounded M E m2 Hle C). lia.
Qed.

(** [binary_round]: as [binary_round_aux], after the mantissa has been
    aligned to the exponent [e1] when it is too short. *)
Lemma binary_round_spec (s : bool) (M : positive) (E : Z) :
  let e1 := fexp (Zpos (digits2_pos M) + E) in
  exists m2,
    binary_round prec emax s M E =
      (if m2 =? 2 ^ prec then pack prec emax s (2 ^ (prec - 1)) (e1 + 1) else pack prec emax s m2 e1) /\
    0 <= m2 <= 2 ^ prec /\
    (0 < m2 < 2 ^ prec -> canonical_mantissa prec emax (Z.to_pos m2) e1 = true) /\
    (e1 <= E -> m2 = Zpos M * 2 ^ (E - e1)) /\
    (E <= e1 ->
       (m2 = Zpos M / 2 ^ (e1 - E) \/ m2 = Zpos M / 2 ^ (e1 - E) + 1) /\
       (Zpos M mod 2 ^ (e1 - E) = 0 -> m2 = Zpos M / 2 ^ (e1 - E))).
Proof.
  intros e1. unfold binary_round, shl_align. fold e1.
  destruct (e1 - E) as [|dd|dd] eqn:En.
  - (* no alignment, no shift *)
    assert (Hle : E <= e1) by lia.
    destruct (bra_spec s M E Hle) as (m2 & C & X & Hm1 & R). fold e1 in C, X, Hm1, R.
    exists m2. split; [exact R|]. split; [lia|]. split.
    { intros H. apply (canonical_rounded M E m2 Hle C H). }
    replace (E - e1) with 0 by lia. rewrite En in *.
    rewrite Z.pow_0_r, Z.div_1_r in *. split; [|now split].
    intros _. rewrite Z.mul_1_r. apply X. apply Z.mod_1_r.
  - assert (Hle : E <= e1) by lia.
    destruct (bra_spec s M E Hle) as (m2 & C & X & Hm1 & R). fold e1 in C, X, Hm1, R.
    exists m2. split; [exact R|]. split; [lia|]. split.
    { intros H. apply (canonical_rounded M E m2 Hle C H). }
    rewrite En in *. split; [lia|now split].
  - (* the mantissa is aligned to the exponent [e1] first *)
    set (mz := Pos.iter xO M dd).
    assert (Hmz : Zpos mz = Zpos M * 2 ^ (E - e1)).
    { unfold mz. rewrite iter_xO. f_equal. f_equal. lia. }
    assert (Hdz : Zpos (digits2_pos mz) + e1 = Zpos (digits2_pos M) + E).
    { rewrite (digits2_shift M mz (E - e1)); [lia|lia|exact Hmz]. }
    assert (Hle : e1 <= fexp (Zpos (digits2_pos mz) + e1)) by (rewrite Hdz; fold e1; lia).
    destruct (bra_spec s mz e1 Hle) as (m2 & C & X & Hm1 & R).
    pose proof (canonical_rounded mz e1 m2 Hle C) as K.
    rewrite Hdz in C, X, Hm1, R, K. fold e1 in C, X, Hm1, R, K.
    replace (e1 - e1) with 0 in * by lia. rewrite Z.pow_0_r, Z.div_1_r in *.
    specialize (X (Z.mod_1_r _)). subst m2.
    exists (Zpos mz). split; [exact R|]. split; [lia|]. split; [exact K|].
    split; [intros _; exact Hmz|lia].
Qed.

Lemma binary_round_valid (s : bool) (M : positive) (E : Z) :
  valid_binary prec emax (binary_round prec emax s M E) = true.
Proof.
  destruct (binary_round_spec s M E) as (m2 & -> & Hr & K & _).
  assert (0 < 2 ^ (prec - 1)) by (apply Z.pow_pos_nonneg; lia).
  destruct (Z.eqb_spec m2 (2 ^ prec)).
  - apply pack_valid; [lia|]. intros _. apply canonical_carry, fexp_ge_emin.
  - apply pack_valid; [lia|]. intros Hpos. apply K. lia.
Qed.

Lemma binary_normalize_valid (M E : Z) (sz : bool) :
  valid_binary prec emax (binary_normalize prec emax M E sz) = true.
Proof.
  destruct M; cbn [binary_normalize]; [reflexivity| |]; apply binary_round_valid.
Qed.

(** *** Values between zero and one *)

Lemma unit01_valid (x : spec_float) : unit01 prec emax x = true -> valid_binary prec emax x = true.
Proof.
  destruct x as [| | |[|] m e]; cbn; try congruence.
  now intros [H _]%andb_true_iff.
Qed.

(** A positive value below [1] rounds into [[0, 1]]. *)
Lemma binary_round_unit (M : positive) (E : Z) :
  Zpos (digits2_pos M) + E <= 0 ->
  unit01 prec emax (binary_round prec emax false M E) = true.
Proof.
  intros Hv.
  destruct (binary_round_spec false M E) as (m2 & -> & Hr & K & _).
  set (e1 := fexp (Zpos (digits2_pos M) + E)) in *.
  pose proof emin_le as Hemin.
  assert (He1 : emin <= e1 <= - prec) by (unfold e1, SpecFloat.fexp; lia).
  assert (P1 : 0 < 2 ^ (prec - 1)) by (apply Z.pow_pos_nonneg; lia).
  destruct (Z.eqb_spec m2 (2 ^ prec)) as [Ec|Hnc].
  - rewrite pack_pos by lia.
    cbn [unit01]. unfold bounded.
    rewrite (canonical_carry e1 (proj1 He1)).
    rewrite (proj2 (Z.leb_le (e1 + 1) (emax - prec))) by lia. cbn [andb].
    rewrite Z2Pos.id, Z.eqb_refl, andb_true_r by lia.
    destruct (Z.ltb_spec (e1 + 1) (1 - prec)); [reflexivity|].
    cbn [orb]. apply Z.eqb_eq. lia.
  - destruct (Z.eq_dec m2 0) as [->|Hnz]; [reflexivity|].
    rewrite pack_pos by lia.
    cbn [unit01]. unfold bounded.
    rewrite K by lia.
    rewrite (proj2 (Z.leb_le e1 (emax - prec))) by lia. cbn [andb].
    destruct (Z.ltb_spec e1 (1 - prec)); [reflexivity|lia].
Qed.

Lemma binary_normalize_unit (M E : Z) :
  0 <= M < 2 ^ (- E) -> E <= 0 ->
  unit01 prec emax (binary_normalize prec emax M E false) = true.
Proof.
  intros HM HE. destruct M as [|p|p]; [reflexivity| |lia].
  cbn [binary_normalize]. apply binary_round_unit.
  assert (Zpos (digits2_pos p) <= - E) by (apply digits2_le; lia). lia.
Qed.


(** What [bounded] says of a mantissa and its exponent. *)
Lemma bounded_inv (m : positive) (e : Z) :
  bounded prec emax m e = true ->
  e = fexp (Zpos (digits2_pos m) + e) /\ e <= emax - prec /\
  Zpos (digits2_pos m) <= prec /\ emin <= e /\
  (Zpos (digits2_pos m) = prec \/ e = emin).
Proof.
  unfold bounded, canonical_mantissa.
  intros [H1%Z.eqb_eq H2%Z.leb_le]%andb_true_iff.
  unfold SpecFloat.fexp in *. lia.
Qed.

Lemma SFmul_valid (x y : spec_float) :
  valid_binary prec emax x = true -> valid_binary prec emax y = true ->
  valid_binary prec emax (SFmul prec emax x y) = true.
Proof.
  destruct x as [sx|sx| |sx mx ex], y as [sy|sy| |sy my ey]; try reflexivity.
  cbn [valid_binary SFmul]. intros Hx Hy.
  apply bra_valid.
  apply (bounded_inv mx ex) in Hx as (Cx & _ & Dx & Ex & Nx).
  apply (bounded_inv my ey) in Hy as (Cy & _ & Dy & Ey & Ny).
  pose proof (digits2_bounds mx) as [Lx _]. pose proof (digits2_bounds my) as [Ly _].
  set (dx := Zpos (digits2_pos mx)) in *. set (dy := Zpos (digits2_pos my)) in *.
  assert (0 < dx) by (unfold dx; lia). assert (0 < dy) by (unfold dy; lia).
  assert (dx + dy - 1 <= Zpos (digits2_pos (mx * my))).
  { replace (dx + dy - 1) with (dx - 1 + (dy - 1) + 1) by lia.
    apply digits2_ge; [lia|]. rewrite Z.pow_add_r, Pos2Z.inj_mul by lia.
    apply Z.mul_le_mono_nonneg; try assumption; apply Z.pow_nonneg; lia. }
  pose proof emin_le.
  unfold SpecFloat.fexp in *. lia.
Qed.

Lemma SFsub_valid (x y : spec_float) :
  valid_binary prec emax x = true -> valid_binary prec emax y = true ->
  valid_binary prec emax (SFsub prec emax x y) = true.
Proof.
  destruct x as [sx|sx| |sx mx ex], y as [sy|sy| |sy my ey]; try reflexivity;
    cbn [valid_binary SFsub]; intros Hx Hy; try assumption.
  - destruct sx, sy; reflexivity.
  - destruct sx, sy; reflexivity.
  - apply binary_normalize_valid.
Qed.

Lemma SFadd_valid (x y : spec_float) :
  valid_binary prec emax x = true -> valid_binary prec emax y = true ->
  valid_binary prec emax (SFadd prec emax x y) = true.
Proof.
  destruct x as [sx|sx| |sx mx ex], y as [sy|sy| |sy my ey]; try reflexivity;
    cbn [valid_binary SFadd]; intros Hx Hy; try assumption.
  - destruct sx, sy; reflexivity.
  - destruct sx, sy; reflexivity.
  - apply binary_normalize_valid.
Qed.

(** A value recognised by [unit01] compares as lying between 0 and 1. *)
Lemma unit01_leb (x : spec_float) :
  unit01 prec emax x = true ->
  SFleb (S754_zero false) x = true /\ SFleb x (SFone_canon prec) = true.
Proof.
  destruct x as [s|s| |[|] m e]; cbn [unit01]; try congruence.
  - intros _. split; reflexivity.
  - intros [_ H]%andb_true_iff. split; [reflexivity|].
    unfold SFleb, SFone_canon. cbn [SFcompare].
    apply orb_true_iff in H as [H|[H1 H2]%andb_true_iff].
    + apply Z.ltb_lt in H. rewrite (proj2 (Z.compare_lt_iff _ _) H). reflexivity.
    + apply Z.eqb_eq in H1, H2. subst e. rewrite Z.compare_refl.
      rewrite <- H2. cbn [Z.to_pos]. rewrite Pos.compare_cont_refl. reflexivity.
Qed.

(** *** Rounding depends on the value only *)

Lemma shr_fexp_exact (P : positive) (X : Z) :
  let n := fexp (Zpos (digits2_pos P) + X) - X in
  shr_fexp prec emax (Zpos P) X loc_Exact =
  if n <=? 0 then (Build_shr_record (Zpos P) false false, X)
  else (shr_spec (Zpos P) n, X + n).
Proof.
  intros n. unfold shr_fexp, shr. cbn [Zdigits2 shr_record_of_loc]. fold n.
  destruct n as [|p|p]; try reflexivity.
  now rewrite shr_pos_spec by lia.
Qed.

Lemma shr_spec_scaled (M n j : Z) :
  0 <= M -> 1 <= n -> 0 <= j ->
  shr_spec (M * 2 ^ j) (n + j) = shr_spec M n.
Proof.
  intros HM Hn Hj. unfold shr_spec.
  assert (0 < 2 ^ j) by (apply Z.pow_pos_nonneg; lia).
  assert (0 < 2 ^ n) by (apply Z.pow_pos_nonneg; lia).
  assert (0 < 2 ^ (n - 1)) by (apply Z.pow_pos_nonneg; lia).
  f_equal.
  - rewrite Z.pow_add_r by lia. now rewrite Z.div_mul_cancel_r by lia.
  - replace (n + j - 1) with (j + (n - 1)) by lia.
    rewrite Z.mul_pow2_bits_add by lia. reflexivity.
  - replace (n + j - 1) with (n - 1 + j) by lia.
    rewrite Z.pow_add_r, Z.mul_mod_distr_r by lia.
    destruct (Z.eqb_spec (M mod 2 ^ (n - 1)) 0) as [->|Hne]; [reflexivity|].
    destruct (Z.eqb_spec (M mod 2 ^ (n - 1) * 2 ^ j) 0); [nia|reflexivity].
Qed.

Lemma shr_spec_low (M n j : Z) :
  0 <= M -> 1 <= n <= j ->
  shr_spec (M * 2 ^ j) n = Build_shr_record (M * 2 ^ (j - n)) false false.
Proof.
  intros HM Hn. unfold shr_spec.
  assert (0 < 2 ^ n) by (apply Z.pow_pos_nonneg; lia).
  assert (0 < 2 ^ (n - 1)) by (apply Z.pow_pos_nonneg; lia).
  f_equal.
  - replace j with (j - n + n) at 1 by lia.
    rewrite Z.pow_add_r, Z.mul_assoc, Z.div_mul by lia. reflexivity.
  - apply Z.mul_pow2_bits_low. lia.
  - replace j with (j - (n - 1) + (n - 1)) by lia.
    rewrite Z.pow_add_r, Z.mul_assoc, Z.mod_mul by lia. reflexivity.
Qed.

(** The same value, written with a mantissa [2^j] times larger and an
    exponent [j] smaller, rounds to the same number. *)
Lemma binary_round_scaled (s : bool) (M M' : positive) (E j : Z) :
  0 <= j -> Zpos M' = Zpos M * 2 ^ j ->
  binary_round prec emax s M' (E - j) = binary_round prec emax s M E.
Proof.
  intros Hj HM'. unfold binary_round.
  assert (Hd : Zpos (digits2_pos M') + (E - j) = Zpos (digits2_pos M) + E)
    by (rewrite (digits2_shift M M' j Hj HM'); lia).
  rewrite Hd. set (e1 := fexp (Zpos (digits2_pos M) + E)).
  assert (Pj : 0 < 2 ^ j) by (apply Z.pow_pos_nonneg; lia).
  destruct (Z.le_gt_cases e1 (E - j)) as [Ha|Ha].
  - (* both mantissas are aligned to [e1], and coincide *)
    replace (shl_align M' (E - j) e1) with (shl_align M E e1); [reflexivity|].
    assert (F : fst (shl_align M' (E - j) e1) = fst (shl_align M E e1)).
    { apply Pos2Z.inj. rewrite !shl_align_fst by lia. rewrite HM'.
      rewrite <- Z.mul_assoc, <- Z.pow_add_r by lia. do 2 f_equal. lia. }
    assert (S1 : snd (shl_align M E e1) = e1)
      by (unfold shl_align; destruct (e1 - E) eqn:?; cbn [snd]; lia).
    assert (S2 : snd (shl_align M' (E - j) e1) = e1)
      by (unfold shl_align; destruct (e1 - (E - j)) eqn:?; cbn [snd]; lia).
    destruct (shl_align M E e1), (shl_align M' (E - j) e1). cbn in *. congruence.
  - assert (A' : shl_align M' (E - j) e1 = (M', E - j))
      by (unfold shl_align; destruct (e1 - (E - j)) eqn:?; [reflexivity|reflexivity|lia]).
    rewrite A'. unfold binary_round_aux at 1. rewrite shr_fexp_exact, Hd. fold e1.
    destruct (Z.leb_spec (e1 - (E - j)) 0) as [|_]; [lia|].
    replace (E - j + (e1 - (E - j))) with e1 by lia.
    destruct (Z.le_gt_cases e1 E) as [Hb|Hb].
    + (* only the scaled mantissa is shifted, by less than [j] *)
      set (mz := fst (shl_align M E e1)).
      assert (Hmz : Zpos mz = Zpos M * 2 ^ (E - e1)) by (apply shl_align_fst; lia).
      assert (A : shl_align M E e1 = (mz, e1)).
      { unfold mz, shl_align. destruct (e1 - E) eqn:?; cbn [fst]; f_equal; lia. }
      rewrite A. unfold binary_round_aux. rewrite shr_fexp_exact.
      assert (Hdz : Zpos (digits2_pos mz) + e1 = Zpos (digits2_pos M) + E)
        by (rewrite (digits2_shift M mz (E - e1)); lia).
      rewrite Hdz. fold e1.
      destruct (Z.leb_spec (e1 - e1) 0) as [_|]; [|lia].
      rewrite HM', shr_spec_low by lia. rewrite Hmz.
      replace (j - (e1 - (E - j))) with (E - e1) by lia. reflexivity.
    + (* both are shifted, to the same record *)
      assert (A : shl_align M E e1 = (M, E))
        by (unfold shl_align; destruct (e1 - E) eqn:?; [reflexivity|reflexivity|lia]).
      rewrite A. unfold binary_round_aux. rewrite shr_fexp_exact. fold e1.
      destruct (Z.leb_spec (e1 - E) 0) as [|_]; [lia|].
      replace (E + (e1 - E)) with e1 by lia.
      rewrite HM'. replace (e1 - (E - j)) with (e1 - E + j) by lia.
      rewrite shr_spec_scaled by lia. reflexivity.
Qed.

Lemma binary_normalize_scaled (D E j : Z) (sz : bool) :
  0 <= j ->
  binary_normalize prec emax (D * 2 ^ j) (E - j) sz = binary_normalize prec emax D E sz.
Proof.
  intros Hj. assert (Pj : 0 < 2 ^ j) by (apply Z.pow_pos_nonneg; lia).
  destruct D as [|p|p].
  - reflexivity.
  - destruct (Zpos p * 2 ^ j) as [|q|q] eqn:Eq; try lia.
    cbn [binary_normalize]. apply binary_round_scaled; lia.
  - destruct (Zneg p * 2 ^ j) as [|q|q] eqn:Eq; try lia.
    cbn [binary_normalize]. apply binary_round_scaled; lia.
Qed.

(** A canonical number is its own rounding. *)
Lemma binary_round_canonical (s : bool) (m : positive) (e : Z) :
  bounded prec emax m e = true ->
  binary_round prec emax s m e = S754_finite s m e.
Proof.
  intros Hb. apply bounded_inv in Hb as (Ce & Ee & Dm & _).
  destruct (binary_round_spec s m e) as (m2 & -> & _ & _ & X & _).
  rewrite <- Ce in *. rewrite (X ltac:(lia)).
  replace (e - e) with 0 by lia. rewrite Z.pow_0_r, Z.mul_1_r.
  pose proof (digits2_bounds m) as [_ Hi].
  assert (2 ^ Zpos (digits2_pos m) <= 2 ^ prec) by (apply Z.pow_le_mono_r; lia).
  destruct (Z.eqb_spec (Zpos m) (2 ^ prec)); [lia|].
  now rewrite pack_pos by lia.
Qed.

End Format.


(** ** Facts about binary64 and binary32 *)

Lemma Double_prec : 2 <= Double.prec.
Proof. unfold Double.prec. lia. Qed.

Lemma Double_emax : Double.prec < Double.emax.
Proof. unfold Double.prec, Double.emax. lia. Qed.

Lemma Single_prec : 2 <= Single.prec.
Proof. unfold Single.prec. lia. Qed.

Lemma Single_emax : Single.prec < Single.emax.
Proof. unfold Single.prec, Single.emax. lia. Qed.



Local Notation "'D[' l ']'" := (l Double.prec Double.emax Double_prec Double_emax)
  (at level 0, l at level 200, only parsing).
Local Notation "'S[' l ']'" := (l Single.prec Single.emax Single_prec Single_emax)
  (at level 0, l at level 200, only parsing).

Ltac double_consts :=
  unfold SpecFloat.fexp, SpecFloat.emin, Double.prec, Double.emax in *.

Lemma shiftl_neg (a e : Z) : e <= 0 -> Z.shiftl a e = a / 2 ^ (- e).
Proof.
  intros He. rewrite <- (Z.opp_involutive e) at 1.
  rewrite Z.shiftl_opp_r, Z.shiftr_div_pow2 by lia. reflexivity.
Qed.

(** An integer of at most 53 bits converts exactly. *)
Lemma round_int (s : bool) (p : positive) :
  Zpos p < 2 ^ 53 ->
  let d := Zpos (digits2_pos p) in
  binary_round Double.prec Double.emax s p 0 =
    S754_finite s (Z.to_pos (Zpos p * 2 ^ (53 - d))) (d - 53) /\
  d <= 53.
Proof.
  intros Hp d.
  assert (Hd : 0 < d <= 53) by (split; [unfold d; lia|apply digits2_le; lia]).
  destruct (D[binary_round_spec] s p 0) as (m2 & R & Hr & _ & X & _).
  fold d in R, X. double_consts.
  replace (Z.max (d + 0 - 53) (3 - 1024 - 53)) with (d - 53) in * by lia.
  rewrite (X ltac:(lia)) in R. replace (0 - (d - 53)) with (53 - d) in R by lia.
  pose proof (digits2_bounds p) as [Lo Hi]. fold d in Lo, Hi.
  assert (P : 0 < 2 ^ (53 - d)) by (apply Z.pow_pos_nonneg; lia).
  assert (Zpos p * 2 ^ (53 - d) < 2 ^ 53).
  { replace 53 with (d + (53 - d)) at 2 by lia. rewrite Z.pow_add_r by lia. nia. }
  destruct (Z.eqb_spec (Zpos p * 2 ^ (53 - d)) (2 ^ 53)); [lia|].
  rewrite pack_pos in R by lia. split; [exact R|lia].
Qed.

(** Converting an integer to [double] and truncating it gives it back. *)
Lemma trunc_of_int (q : Z) :
  Z.abs q < 2 ^ 53 -> Double.trunc (Double.of_int q) = Some q.
Proof.
  intros Hq. unfold Double.of_int, binary_normalize.
  destruct q as [|p|p]; [reflexivity| |].
  - destruct (round_int false p ltac:(lia)) as [-> Hd]. cbn [Double.trunc cond_Zopp].
    set (d := Zpos (digits2_pos p)) in *.
    assert (P : 0 < 2 ^ (53 - d)) by (apply Z.pow_pos_nonneg; lia).
    rewrite Z2Pos.id by lia.
    rewrite shiftl_neg by lia.
    replace (- (d - 53)) with (53 - d) by lia. rewrite Z.div_mul by lia. reflexivity.
  - destruct (round_int true p ltac:(lia)) as [-> Hd]. cbn [Double.trunc cond_Zopp].
    set (d := Zpos (digits2_pos p)) in *.
    assert (P : 0 < 2 ^ (53 - d)) by (apply Z.pow_pos_nonneg; lia).
    rewrite Z2Pos.id by lia.
    rewrite shiftl_neg by lia.
    replace (- (d - 53)) with (53 - d) by lia. rewrite Z.div_mul by lia. reflexivity.
Qed.

(** The two outcomes of the conversion to [int]. *)
Lemma to_int_cases (x : Double.t) (v : Z) :
  Double.trunc x = Some v ->
  (Double.INT_MIN <= v <= Double.INT_MAX /\ Double.to_int x = v) \/
  (~ Double.INT_MIN <= v <= Double.INT_MAX /\ Double.to_int x = Double.INT_MIN).
Proof.
  intros H. unfold Double.to_int. rewrite H.
  destruct (andb _ _) eqn:E.
  - apply andb_true_iff in E as [?%Z.leb_le ?%Z.leb_le]. left. lia.
  - apply andb_false_iff in E as [?%Z.leb_gt| ?%Z.leb_gt]; right; lia.
Qed.

Lemma spec_float_eq_dec (x y : spec_float) : {x = y} + {x <> y}.
Proof.
  decide equality; try apply Z.eq_dec; try apply Pos.eq_dec; apply Bool.bool_dec.
Defined.

(** Where the floor of [x] converts to a nonnegative [int], converting it
    back gives the floor again (a negative zero apart, whose floor
    converts to [0] and comes back as [+0]). *)
Lemma floor_through_int (x : Double.t) :
  Double.valid x = true ->
  0 <= Double.to_int (Double.floor x) ->
  x <> S754_zero true ->
  Double.finite x = true /\
  Double.of_int (Double.to_int (Double.floor x)) = Double.floor x.
Proof.
  intros Hv Hi Hnz. destruct x as [[|]|s| |s m e].
  - contradiction.
  - split; reflexivity.
  - exfalso. revert Hi. unfold Double.floor, Double.to_int, Double.trunc, Double.INT_MIN. lia.
  - exfalso. revert Hi. unfold Double.floor, Double.to_int, Double.trunc, Double.INT_MIN. lia.
  - split; [reflexivity|].
    unfold Double.valid in Hv. cbn [valid_binary] in Hv.
    apply D[bounded_inv] in Hv as (Ce & Ee & Dm & Em & Nm).
    pose proof (digits2_bounds m) as [Lo Hi'].
    remember (Zpos (digits2_pos m)) as d eqn:Ed. double_consts.
    unfold Double.floor in *.
    destruct (Z.leb_spec 0 e) as [He|He].
    + (* an integral value of at least 2^52 does not fit an [int] *)
      exfalso. assert (Hd : d = 53) by lia. rewrite Hd in *.
      assert (2 ^ 52 <= Zpos m) by exact Lo.
      assert (0 < 2 ^ e) by (apply Z.pow_pos_nonneg; lia).
      destruct (to_int_cases (S754_finite s m e) _ eq_refl) as [[R E]|[R E]];
        rewrite E in Hi; revert R Hi; rewrite Z.shiftl_mul_pow2 by lia;
        unfold Double.INT_MIN, Double.INT_MAX; destruct s; cbn [cond_Zopp]; nia.
    + assert (P : 0 < 2 ^ (- e)) by (apply Z.pow_pos_nonneg; lia).
      rewrite Z.shiftr_div_pow2 in * by lia.
      set (a := cond_Zopp s (Zpos m)) in *.
      assert (Ha : Z.abs a = Zpos m) by (unfold a; destruct s; cbn; lia).
      pose proof (Z.div_mod a (2 ^ (- e)) ltac:(lia)) as Hdm.
      pose proof (Z.mod_pos_bound a (2 ^ (- e)) P) as Hr.
      set (q := a / 2 ^ (- e)) in *.
      destruct (Z.eqb_spec q 0) as [Eq0|Hq0].
      * assert (s = false) as -> by (destruct s; [unfold a in *; cbn [cond_Zopp] in *; lia|reflexivity]).
        reflexivity.
      * fold (Double.of_int q) in *.
        assert (Hq53 : Z.abs q < 2 ^ 53).
        { assert (2 ^ d <= 2 ^ 53) by (apply Z.pow_le_mono_r; lia). nia. }
        destruct (to_int_cases _ _ (trunc_of_int q Hq53)) as [[R E]|[R E]];
          rewrite E in *; [reflexivity|unfold Double.INT_MIN in Hi; lia].
Qed.

Lemma unit01_inv (m : positive) (e : Z) :
  unit01 Double.prec Double.emax (S754_finite false m e) = true ->
  bounded Double.prec Double.emax m e = true /\
  (e < -52 \/ S754_finite false m e = Double.one).
Proof.
  cbn [unit01]. intros [Hb H]%andb_true_iff. split; [exact Hb|].
  apply orb_true_iff in H as [H%Z.ltb_lt|[H1%Z.eqb_eq H2%Z.eqb_eq]%andb_true_iff].
  - left. unfold Double.prec in H. lia.
  - right. unfold Double.prec in H1, H2. subst e.
    change (2 ^ (53 - 1)) with (Zpos 4503599627370496) in H2.
    injection H2 as ->. reflexivity.
Qed.

Lemma one_minus_unit (f : Double.t) :
  unit01 Double.prec Double.emax f = true ->
  unit01 Double.prec Double.emax (Double.sub Double.one f) = true.
Proof.
  intros Hf. destruct f as [s|s| |[|] m e]; try discriminate Hf.
  - reflexivity.
  - apply unit01_inv in Hf as [Hb [He|E1]]; [|rewrite E1; reflexivity].
    apply D[bounded_inv] in Hb as (_ & _ & Dm & Em & _). double_consts.
    unfold Double.sub, Double.one. cbn [SFsub]. rewrite Z.min_r by lia.
    rewrite !shl_align_fst by lia. cbn [cond_Zopp].
    replace (e - e) with 0 by lia. rewrite Z.pow_0_r, Z.mul_1_r.
    change (Zpos 4503599627370496) with (2 ^ 52). rewrite <- Z.pow_add_r by lia.
    replace (52 + (-52 - e)) with (- e) by lia.
    apply D[binary_normalize_unit]; [|lia].
    pose proof (digits2_bounds m) as [_ Hi].
    assert (2 ^ Zpos (digits2_pos m) <= 2 ^ (- e)) by (apply Z.pow_le_mono_r; lia).
    lia.
Qed.

(** Rounding to [float] keeps a value of [[0, 1]] in [[0, 1]]. *)
Lemma narrow_unit (x : Double.t) :
  unit01 Double.prec Double.emax x = true ->
  unit01 Single.prec Single.emax (Single.of_double x) = true.
Proof.
  intros Hx. destruct x as [s|s| |[|] m e]; try discriminate Hx.
  - reflexivity.
  - apply unit01_inv in Hx as [Hb [He|E1]]; [|rewrite E1; reflexivity].
    apply D[bounded_inv] in Hb as (_ & _ & Dm & _). double_consts.
    cbn [Single.of_double]. apply S[binary_round_unit]. lia.
Qed.

(** Multiplying by [1.0] changes nothing. *)
Lemma mul_one_l (x : Double.t) :
  Double.valid x = true -> Double.mul Double.one x = x.
Proof.
  intros Hv. destruct x as [s|s| |s m e]; try reflexivity.
  unfold Double.valid in Hv. cbn [valid_binary] in Hv.
  apply D[bounded_inv] in Hv as (Ce & Ee & Dm & Em & _).
  unfold Double.mul, Double.one. cbn [SFmul xorb].
  set (M := (4503599627370496 * m)%positive).
  assert (HM : Zpos M = Zpos m * 2 ^ 52) by (unfold M; lia).
  assert (HdM : Zpos (digits2_pos M) = Zpos (digits2_pos m) + 52)
    by (apply (digits2_shift m M 52); [lia|exact HM]).
  destruct (D[bra_spec] s M (-52 + e)) as (m2 & _ & X & _ & R).
  { rewrite HdM. double_consts. lia. }
  rewrite R. clear R. rewrite HdM in X |- *.
  replace (Zpos (digits2_pos m) + 52 + (-52 + e)) with (Zpos (digits2_pos m) + e) in * by lia.
  rewrite <- Ce in *. replace (e - (-52 + e)) with 52 in X by lia.
  rewrite HM, Z.mod_mul, Z.div_mul in X by lia. rewrite (X eq_refl).
  pose proof (digits2_bounds m) as [_ Hi].
  assert (2 ^ Zpos (digits2_pos m) <= 2 ^ Double.prec) by (apply Z.pow_le_mono_r; lia).
  destruct (Z.eqb_spec (Zpos m) (2 ^ Double.prec)); [lia|].
  rewrite D[pack_pos] by (double_consts; lia). reflexivity.
Qed.

(** The operations of [heightMapColor] keep values well-formed. *)
Lemma floor_valid (x : Double.t) :
  Double.valid x = true -> Double.valid (Double.floor x) = true.
Proof.
  intros Hv. destruct x as [s|s| |s m e]; try reflexivity.
  unfold Double.floor. destruct (0 <=? e); [exact Hv|].
  destruct (_ =? 0); [reflexivity|]. apply D[binary_normalize_valid].
Qed.

Lemma sub_valid (x y : Double.t) :
  Double.valid x = true -> Double.valid y = true -> Double.valid (Double.sub x y) = true.
Proof. apply D[SFsub_valid]. Qed.

Lemma mul_valid (x y : Double.t) :
  Double.valid x = true -> Double.valid y = true -> Double.valid (Double.mul x y) = true.
Proof. apply D[SFmul_valid]. Qed.

Lemma of_int_valid (i : Z) : Double.valid (Double.of_int i) = true.
Proof. apply D[binary_normalize_valid]. Qed.

(** *** The wrap as a rounded fractional part *)

(** A finite number as an integer multiple of [2^ez], for [ez] at most
    its exponent. *)
Lemma scaled_finite (s : bool) (m : positive) (e ez : Z) :
  scaled (S754_finite s m e) ez = cond_Zopp s (Zpos m) * 2 ^ (e - ez).
Proof. reflexivity. Qed.

(** [x - floor(x)] is the rounding of the exact fractional part of [x]. *)
Lemma wrap_frac (x : Double.t) (ez : Z) :
  Double.valid x = true -> Double.finite x = true ->
  ez <= exponent x -> ez <= 0 ->
  wrap x =
  binary_normalize Double.prec Double.emax (scaled x ez mod 2 ^ (- ez)) ez false.
Proof.
  intros Hv Hf Hez Hez0. unfold wrap.
  assert (Pz : 0 < 2 ^ (- ez)) by (apply Z.pow_pos_nonneg; lia).
  destruct x as [s|s| |s m e]; try discriminate Hf.
  - cbn [scaled]. rewrite Z.mod_0_l by lia. destruct s; reflexivity.
  - cbn [exponent] in Hez. rewrite scaled_finite.
    unfold Double.valid in Hv. cbn [valid_binary] in Hv. pose proof Hv as Hb.
    apply D[bounded_inv] in Hv as (Ce & Ee & Dm & Em & Nm).
    pose proof (digits2_bounds m) as [Lo Hi].
    remember (Zpos (digits2_pos m)) as d eqn:Ed. double_consts.
    set (a := cond_Zopp s (Zpos m)).
    assert (Ha : Z.abs a = Zpos m) by (unfold a; destruct s; cbn; lia).
    unfold Double.floor. destruct (Z.leb_spec 0 e) as [He|He].
    + (* an integral value *)
      cbn [Double.sub SFsub]. rewrite Z.sub_diag.
      replace (e - ez) with (e + - ez) by lia.
      rewrite Z.pow_add_r, Z.mul_assoc, Z.mod_mul by lia. reflexivity.
    + assert (P : 0 < 2 ^ (- e)) by (apply Z.pow_pos_nonneg; lia).
      assert (P3 : 0 < 2 ^ (e - ez)) by (apply Z.pow_pos_nonneg; lia).
      assert (Hsplit : 2 ^ (- ez) = 2 ^ (- e) * 2 ^ (e - ez)).
      { rewrite <- Z.pow_add_r by lia. f_equal. lia. }
      rewrite Hsplit, Z.mul_mod_distr_r by lia.
      replace ez with (e - (e - ez)) at 2 by lia.
      rewrite D[binary_normalize_scaled] by lia.
      (* what remains does not depend on [ez] *)
      rewrite Z.shiftr_div_pow2 by lia. fold a.
      pose proof (Z.div_mod a (2 ^ (- e)) ltac:(lia)) as Hdm.
      pose proof (Z.mod_pos_bound a (2 ^ (- e)) P) as Hr.
      set (q := a / 2 ^ (- e)) in *. set (r := a mod 2 ^ (- e)) in *.
      assert (Hsq : s = (q <? 0)).
      { unfold a in *. destruct s; cbn [cond_Zopp] in *; symmetry;
          [apply Z.ltb_lt|apply Z.ltb_ge]; nia. }
      assert (Hqm : Z.abs q <= Zpos m) by nia.
      destruct (Z.eqb_spec q 0) as [Eq0|Hq0].
      * assert (s = false) as -> by (rewrite Hsq, Eq0; reflexivity).
        cbn [Double.sub SFsub].
        assert (r = Zpos m) as -> by (unfold a in *; cbn [cond_Zopp] in *; lia).
        cbn [binary_normalize]. symmetry. now apply D[binary_round_canonical].
      * assert (H53 : 2 ^ d <= 2 ^ 53) by (apply Z.pow_le_mono_r; lia).
        assert (exists pq, Z.abs q = Zpos pq) as [pq Hpq]
          by (destruct q as [|pq|pq]; [lia|exists pq|exists pq]; reflexivity).
        assert (HF : binary_normalize Double.prec Double.emax q 0 false =
                     binary_round Double.prec Double.emax s pq 0).
        { rewrite Hsq. destruct q as [|p|p]; [lia| |]; cbn in Hpq; injection Hpq as ->;
            reflexivity. }
        rewrite HF. destruct (round_int s pq ltac:(lia)) as [-> Hdq].
        set (dq := Zpos (digits2_pos pq)) in *.
        assert (0 < dq) by (unfold dq; lia).
        assert (P2 : 0 < 2 ^ (53 - dq)) by (apply Z.pow_pos_nonneg; lia).
        cbn [Double.sub SFsub].
        set (ev := Z.min e (dq - 53)).
        rewrite !shl_align_fst by (unfold ev; lia).
        rewrite Z2Pos.id by lia.
        replace (cond_Zopp s (Zpos m * 2 ^ (e - ev))) with (a * 2 ^ (e - ev))
          by (unfold a; destruct s; cbn [cond_Zopp]; lia).
        replace (cond_Zopp s (Zpos pq * 2 ^ (53 - dq) * 2 ^ (dq - 53 - ev)))
          with (q * 2 ^ (- ev)).
        2:{ rewrite <- Z.mul_assoc, <- Z.pow_add_r by (unfold ev; lia).
            replace (53 - dq + (dq - 53 - ev)) with (- ev) by lia.
            rewrite <- Hpq, Hsq.
            destruct (Z.ltb_spec q 0); cbn [cond_Zopp]; lia. }
        assert (Hev : 2 ^ (- ev) = 2 ^ (- e) * 2 ^ (e - ev)).
        { rewrite <- Z.pow_add_r by (unfold ev; lia). f_equal. lia. }
        assert (P4 : 0 < 2 ^ (e - ev)) by (apply Z.pow_pos_nonneg; unfold ev; lia).
        replace (a * 2 ^ (e - ev) - q * 2 ^ (- ev)) with (r * 2 ^ (e - ev))
          by (rewrite Hev; nia).
        replace ev with (e - (e - ev)) at 2 by lia.
        apply D[binary_normalize_scaled]. unfold ev. lia.
Qed.

(** The wrap of [heightMapColor]: a finite [x] minus its floor lies in
    [[0, 1]]. *)
Lemma wrap_unit (x : Double.t) :
  Double.valid x = true -> Double.finite x = true ->
  unit01 Double.prec Double.emax (wrap x) = true.
Proof.
  intros Hv Hf.
  rewrite (wrap_frac x (Z.min (exponent x) 0)) by (assumption || lia).
  apply D[binary_normalize_unit]; [|lia].
  apply Z.mod_pos_bound, Z.pow_pos_nonneg; lia.
Qed.

(** The fractional part left by the sector computation: subtracting from
    [x] its own floor, taken through [int], gives a value in [[0, 1]]. *)
Lemma frac_unit (x : Double.t) :
  Double.valid x = true ->
  0 <= Double.to_int (Double.floor x) ->
  unit01 Double.prec Double.emax
    (Double.sub x (Double.of_int (Double.to_int (Double.floor x)))) = true.
Proof.
  intros Hv Hi.
  destruct (spec_float_eq_dec x (S754_zero true)) as [->|Hnz]; [reflexivity|].
  destruct (floor_through_int x Hv Hi Hnz) as [Hf ->].
  now apply wrap_unit.
Qed.

(** Adding [1.0] without rounding error does not change the wrap. *)
Lemma wrap_add_one (h : Double.t) :
  Double.valid h = true -> Double.finite h = true ->
  add_is_exact h Double.one = true ->
  wrap (Double.add h Double.one) = wrap h.
Proof.
  intros Hv Hf [Hfin Hsum%Z.eqb_eq]%andb_true_iff.
  set (c := Double.add h Double.one) in *.
  assert (Hc : Double.valid c = true) by (apply D[SFadd_valid]; [assumption|reflexivity]).
  set (ez := Z.min (Z.min (exponent h) (exponent Double.one)) (exponent c)) in *.
  assert (Hez : ez <= -52) by (unfold ez; cbn [exponent Double.one]; lia).
  rewrite (wrap_frac c ez), (wrap_frac h ez) by (assumption || (unfold ez; lia) || lia).
  rewrite Hsum. f_equal.
  assert (S1 : scaled Double.one ez = 1 * 2 ^ (- ez)).
  { cbn [scaled Double.one cond_Zopp]. change (Zpos 4503599627370496) with (2 ^ 52).
    rewrite <- Z.pow_add_r by lia. rewrite Z.mul_1_l. f_equal. lia. }
  rewrite S1. apply Z_mod_plus_full.
Qed.

(** ** The colour function *)

Lemma land_1_even (i : Z) : (Z.land i 1 =? 0) = Z.even i.
Proof.
  change 1 with (Z.ones 1). rewrite Z.land_ones by lia.
  change (2 ^ 1) with 2. rewrite Zmod_odd, <- Z.negb_odd.
  destruct (Z.odd i); reflexivity.
Qed.

Lemma sector_inv (i : Z) (p : channel * channel * channel) :
  sector i = Some p -> 0 <= i <= 6.
Proof.
  destruct i as [|[[[q|q|]|[q|q|]|]|[[q|q|]|[q|q|]|]|]|q];
    vm_compute; intros H; (discriminate H || (split; discriminate)).
Qed.

Lemma fraction_valid (h6 : Double.t) (i : Z) :
  Double.valid h6 = true -> Double.valid (fraction h6 i) = true.
Proof.
  intros Hv. unfold fraction.
  assert (Double.valid (Double.sub h6 (Double.of_int i)) = true)
    by (apply sub_valid; [assumption|apply of_int_valid]).
  destruct (Z.even i); [|assumption]. now apply sub_valid.
Qed.

(** The program and the step-by-step description compute the same colour. *)
Lemma heightMapColor_colorForHeight (h : Double.t) :
  Double.valid h = true -> heightMapColor h = colorForHeight h.
Proof.
  intros Hv. unfold heightMapColor, colorForHeight, wrap.
  set (h6 := Double.mul (Double.sub h (Double.floor h)) Double.six).
  assert (Hh6 : Double.valid h6 = true).
  { apply mul_valid; [|reflexivity]. apply sub_valid; [assumption|].
    now apply floor_valid. }
  generalize (Double.to_int (Double.floor h6)). intros i.
  cbv zeta. rewrite land_1_even. fold (fraction h6 i).
  pose proof (fraction_valid h6 i Hh6) as Hf.
  rewrite (mul_one_l (fraction h6 i)) by assumption.
  rewrite (mul_one_l (Double.sub Double.one (fraction h6 i)))
    by (now apply sub_valid).
  change (Double.mul Double.one (Double.sub Double.one Double.one)) with Double.zero.
  generalize (Double.sub Double.one (fraction h6 i)). intros n.
  unfold sector, fallbackColor, rgba.
  destruct i as [|[[[p|p|]|[p|p|]|]|[[p|p|]|[p|p|]|]|]|p]; reflexivity.
Qed.

Lemma narrow_in_unit (c : Double.t) :
  unit01 Double.prec Double.emax c = true -> in_unit_interval (Single.of_double c).
Proof.
  intros H. apply narrow_unit in H.
  apply (unit01_leb Single.prec Single.emax Single_prec Single_emax) in H.
  exact H.
Qed.

Lemma fraction_unit (h6 : Double.t) :
  Double.valid h6 = true ->
  0 <= Double.to_int (Double.floor h6) ->
  unit01 Double.prec Double.emax
    (fraction h6 (Double.to_int (Double.floor h6))) = true.
Proof.
  intros Hv Hi. unfold fraction. pose proof (frac_unit h6 Hv Hi) as Hf.
  destruct (Z.even _); [|assumption]. now apply one_minus_unit.
Qed.

(** C10: whatever the input, the red, green and blue components of the
    colour returned by [heightMapColor] lie between 0 and 1, and its alpha
    component is exactly 1. *)
Theorem heightMapColor_components_in_unit_interval (h : Double.t) :
  Double.valid h = true ->
  in_unit_interval (r (heightMapColor h)) /\
  in_unit_interval (g (heightMapColor h)) /\
  in_unit_interval (b (heightMapColor h)) /\
  a (heightMapColor h) = Single.one.
Proof.
  intros Hv. rewrite heightMapColor_colorForHeight by assumption.
  unfold colorForHeight, wrap.
  set (h6 := Double.mul (Double.sub h (Double.floor h)) Double.six).
  assert (Hh6 : Double.valid h6 = true).
  { apply mul_valid; [|reflexivity]. apply sub_valid; [assumption|].
    now apply floor_valid. }
  cbv zeta. fold (fraction h6 (Double.to_int (Double.floor h6))).
  destruct (sector _) as [[[c1 c2] c3]|] eqn:Es.
  - apply sector_inv in Es.
    pose proof (fraction_unit h6 Hh6 (proj1 Es)) as Hf.
    apply one_minus_unit in Hf.
    set (n := Double.sub Double.one _) in *.
    assert (Hpick : forall c : channel,
      in_unit_interval (Single.of_double
        match c with chV => Double.one | chN => n | chM => Double.zero end)).
    { intros [| |]; [split; reflexivity|now apply narrow_in_unit|split; reflexivity]. }
    unfold rgba. cbn [r g b a]. repeat split; try apply Hpick.
  - repeat split; reflexivity.
Qed.

Lemma heightMapColor_components_witness :
  Double.valid d0_8 = true /\
  in_unit_interval (r (heightMapColor d0_8)) /\
  in_unit_interval (g (heightMapColor d0_8)) /\
  in_unit_interval (b (heightMapColor d0_8)) /\
  a (heightMapColor d0_8) = Single.one.
Proof.
  split; [reflexivity|].
  apply (heightMapColor_components_in_unit_interval d0_8). reflexivity.
Defined.

(** ** The description of the colour function (C2) *)

(** C2 as stated says the first step wraps [h] into [[0, 1)]; for the
    tiny negative height [-2^-70] the difference [h - floor(h)] rounds to
    [1.0] itself, which is not below one, and the sector is 6. *)
Lemma wrap_of_tiny_negative_is_one :
  Double.valid tiny_negative = true /\
  wrap tiny_negative = Double.one /\
  ~ Double.ltb (wrap tiny_negative) Double.one = true /\
  Double.to_int (Double.floor (Double.mul (wrap tiny_negative) Double.six)) = 6.
Proof.
  split; [reflexivity|]. split; [reflexivity|]. split; [|reflexivity].
  vm_compute. intros H. discriminate H.
Qed.

Lemma sector_None (i : Z) : sector i = None <-> ~ 0 <= i <= 6.
Proof.
  split.
  - intros H [H0 H6].
    assert (C : i = 0 \/ i = 1 \/ i = 2 \/ i = 3 \/ i = 4 \/ i = 5 \/ i = 6) by lia.
    destruct C as [->|[->|[->|[->|[->|[->| ->]]]]]]; discriminate H.
  - intros H. destruct (sector i) as [p|] eqn:E; [|reflexivity].
    apply sector_inv in E. contradiction.
Qed.

(** C2, amended: [heightMapColor] computes what the description says --
    [h - floor(h)], the sector [i = floor(h*6)], the fraction [f = h*6 - i]
    inverted to [1 - f] for even [i], [m = 0], [n = 1 - f], the
    permutation of [(1, n, m)] of the sector table, alpha [1.0], and the
    fallback colour when the sector is none of 0..6 -- where the first
    step leaves, for a finite [h], a value in [[0, 1]], the bound [1.0]
    included. *)
Theorem heightMapColor_follows_description (h : Double.t) :
  Double.valid h = true ->
  heightMapColor h = colorForHeight h /\
  (Double.finite h = true ->
     Double.leb Double.zero (wrap h) = true /\ Double.leb (wrap h) Double.one = true) /\
  (forall i, sector i = None <-> ~ 0 <= i <= 6) /\
  a (heightMapColor h) = Single.one /\
  fallbackColor = mkColorRGBA Single.one Single.half Single.half Single.one.
Proof.
  intros Hv. split; [now apply heightMapColor_colorForHeight|]. split.
  - intros Hf. pose proof (wrap_unit h Hv Hf) as H.
    apply (unit01_leb Double.prec Double.emax Double_prec Double_emax) in H.
    exact H.
  - split; [exact sector_None|]. split; [|reflexivity].
    rewrite heightMapColor_colorForHeight by assumption.
    unfold colorForHeight. cbv zeta.
    destruct (sector _) as [[[c1 c2] c3]|]; reflexivity.
Qed.

Lemma heightMapColor_follows_description_witness :
  heightMapColor tiny_negative = colorForHeight tiny_negative /\
  (Double.finite tiny_negative = true ->
     Double.leb Double.zero (wrap tiny_negative) = true /\
     Double.leb (wrap tiny_negative) Double.one = true) /\
  (forall i, sector i = None <-> ~ 0 <= i <= 6) /\
  a (heightMapColor tiny_negative) = Single.one /\
  fallbackColor = mkColorRGBA Single.one Single.half Single.half Single.one.
Proof. apply (heightMapColor_follows_description tiny_negative). reflexivity. Defined.

(** ** Periodicity (C9) *)

(** C9 as stated fails in double arithmetic: [1.5 * 2^-52 + 1.0] rounds to
    [1 + 2^-51], whose wrap is [2^-51] and not [1.5 * 2^-52], and the green
    components of the two colours differ. *)
Lemma heightMapColor_not_periodic :
  heightMapColor (Double.add three_halves_ulp Double.one) <>
  heightMapColor three_halves_ulp.
Proof. vm_compute. intros H. discriminate H. Qed.

Lemma heightMapColor_wrap (h h' : Double.t) :
  wrap h' = wrap h -> heightMapColor h' = heightMapColor h.
Proof.
  intros H. unfold heightMapColor.
  change (Double.sub h' (Double.floor h')) with (wrap h').
  change (Double.sub h (Double.floor h)) with (wrap h).
  now rewrite H.
Qed.

(** C9, amended: for every finite height [h] for which the sum [h + 1.0]
    is computed without rounding error, [h] and [h + 1.0] get the same
    colour; the two wraps [h - floor(h)], through which alone the colour
    depends on the height, are then the same. *)
Theorem heightMapColor_periodic_when_sum_exact (h : Double.t) :
  Double.valid h = true -> Double.finite h = true ->
  add_is_exact h Double.one = true ->
  wrap (Double.add h Double.one) = wrap h /\
  heightMapColor (Double.add h Double.one) = heightMapColor h.
Proof.
  intros Hv Hf He. pose proof (wrap_add_one h Hv Hf He) as Hw.
  split; [exact Hw|]. now apply heightMapColor_wrap.
Qed.

Lemma heightMapColor_periodic_witness :
  add_is_exact three_halves_ulp Double.one = false /\
  add_is_exact half_quarter Double.one = true /\
  wrap (Double.add half_quarter Double.one) = wrap half_quarter /\
  heightMapColor (Double.add half_quarter Double.one) = heightMapColor half_quarter.
Proof.
  split; [reflexivity|]. split; [reflexivity|].
  apply (heightMapColor_periodic_when_sum_exact half_quarter); reflexivity.
Defined.

(** The two ends of the wheel meet: the heights [0.0] and [1.0] both fall
    in sector 0 and get the same colour. *)
Example heightMapColor_zero_one :
  heightMapColor Double.one = heightMapColor Double.zero.
Proof. reflexivity. Qed.

(** ** The two loops of [readMap] *)

Lemma to_int_range (d : Double.t) :
  Double.INT_MIN <= Double.to_int d <= Double.INT_MAX.
Proof.
  unfold Double.to_int.
  destruct (Double.trunc d) as [v|]; [|unfold Double.INT_MIN, Double.INT_MAX; lia].
  destruct (andb _ _) eqn:E; [|unfold Double.INT_MIN, Double.INT_MAX; lia].
  apply andb_true_iff in E as [E1 E2]. lia.
Qed.

Section Loops.

Variable log2 : Double.t -> Double.t.
Variable now : nat -> ros_time.
Variable srv : OctomapServer.
Variables minZ maxZ lowestRes : Double.t.

Local Abbreviation bucket_of := (bucket log2 lowestRes).
Local Abbreviation grown := (grow srv minZ maxZ).
Local Abbreviation level_of := (level log2 lowestRes).

Lemma level_ok_spec (ms : list Marker.t) (it : OcTreeVolume) :
  level_ok ms (level_of it) = true <->
  0 <= level_of it /\ (Z.to_nat (level_of it) < length ms)%nat.
Proof.
  unfold level_ok, to_unsigned.
  pose proof (to_int_range
    (Double.add (log2 (Double.div (second it) lowestRes)) Double.half)) as R.
  fold (level_of it) in R.
  unfold Double.INT_MIN, Double.INT_MAX in R.
  rewrite andb_true_iff, Z.leb_le, Z.ltb_lt. split.
  - intros [H0 H1]. rewrite Z.mod_small in H1 by lia. lia.
  - intros [H0 H1]. rewrite Z.mod_small by lia. lia.
Qed.

Lemma level_ok_16 (ms : list Marker.t) (it : OcTreeVolume) :
  length ms = 16%nat ->
  level_ok ms (level_of it) = true <-> in_range log2 lowestRes it.
Proof. intros L. rewrite level_ok_spec, L. unfold in_range. lia. Qed.

Lemma level_ok_length (ms ms' : list Marker.t) (idx : Z) :
  length ms = length ms' -> level_ok ms idx = level_ok ms' idx.
Proof. unfold level_ok. now intros ->. Qed.

Lemma grow_nil (m : Marker.t) : grown [] m = m.
Proof.
  destruct m; unfold grow; cbn. rewrite !app_nil_r.
  destruct (m_useHeightMap srv); now rewrite ?app_nil_r.
Qed.

Lemma grow_cons (it : OcTreeVolume) (its : list OcTreeVolume) (m : Marker.t) :
  grown (it :: its) m = grown its (grown [it] m).
Proof.
  unfold grow; cbn. rewrite <- !app_assoc. cbn.
  destruct (m_useHeightMap srv); cbn; now rewrite <- ?app_assoc, ?app_nil_r.
Qed.

Lemma bucket_cons (k : nat) (it : OcTreeVolume) (cells : list OcTreeVolume) :
  bucket_of k (it :: cells) =
  if decide (level_of it = Z.of_nat k) then it :: bucket_of k cells
  else bucket_of k cells.
Proof. unfold bucket. now rewrite filter_cons. Qed.

(** One turn of the first loop, when the assertion holds: the marker of
    the cube's level receives the cube, the others are untouched. *)
Lemma visit_Done (ms : list Marker.t) (n : Z) (it : OcTreeVolume) :
  level_ok ms (level_of it) = true ->
  exists ms',
    visit log2 srv minZ maxZ lowestRes (ms, n) it = Done (ms', (n + 1) mod 2 ^ 32) /\
    length ms' = length ms /\
    ms' !! Z.to_nat (level_of it) = grown [it] <$> ms !! Z.to_nat (level_of it) /\
    forall k, k <> Z.to_nat (level_of it) -> ms' !! k = ms !! k.
Proof.
  intros Hok. unfold visit. rewrite Hok. cbn -[bucket grow Z.pow].
  apply level_ok_spec in Hok as [H0 Hlt].
  set (idx := Z.to_nat (level_of it)) in *.
  eexists. split; [reflexivity|]. split; [|split].
  - destruct (m_useHeightMap srv); now rewrite ?length_alter.
  - destruct (ms !! idx) as [m|] eqn:Hm.
    + unfold grow. destruct (m_useHeightMap srv); cbn.
      * rewrite !list_lookup_alter_eq, Hm. reflexivity.
      * rewrite !list_lookup_alter_eq, Hm. cbn. f_equal.
        unfold Marker.push_point. now rewrite app_nil_r.
    + apply lookup_ge_None in Hm. lia.
  - intros k Hk.
    destruct (m_useHeightMap srv); now rewrite ?list_lookup_alter_ne by congruence.
Qed.

Lemma visit_lookup (ms ms' : list Marker.t) (n n' : Z) (it : OcTreeVolume) :
  visit log2 srv minZ maxZ lowestRes (ms, n) it = Done (ms', n') ->
  level_ok ms (level_of it) = true /\ length ms' = length ms /\
  forall k, ms' !! k = grown (bucket_of k [it]) <$> ms !! k.
Proof.
  intros E. destruct (level_ok ms (level_of it)) eqn:Hok.
  2:{ unfold visit in E. rewrite Hok in E. discriminate E. }
  destruct (visit_Done ms n it Hok) as (ms1 & E1 & L1 & K1 & K2).
  rewrite E1 in E. injection E as <- <-. split; [reflexivity|]. split; [exact L1|].
  intros k. rewrite bucket_cons.
  replace (bucket_of k []) with (@nil OcTreeVolume) by reflexivity.
  apply level_ok_spec in Hok as [H0 _].
  destruct (decide (level_of it = Z.of_nat k)) as [E|E].
  - replace k with (Z.to_nat (level_of it)) by lia. exact K1.
  - rewrite K2 by lia. destruct (ms !! k); cbn; now rewrite ?grow_nil.
Qed.

Lemma visit_fails (ms : list Marker.t) (n : Z) (it : OcTreeVolume) :
  level_ok ms (level_of it) = false ->
  visit log2 srv minZ maxZ lowestRes (ms, n) it = AssertionFailed.
Proof. intros Hok. unfold visit. now rewrite Hok. Qed.

(** The first loop runs to its end when every cube passes the assertion,
    and then each marker has received the cubes of its level. *)
Lemma visit_all_Done (cells : list OcTreeVolume) (ms : list Marker.t) (n : Z) :
  Forall (fun it => level_ok ms (level_of it) = true) cells ->
  exists ms' n',
    visit_all log2 srv minZ maxZ lowestRes (ms, n) cells = Done (ms', n') /\
    length ms' = length ms /\
    forall k, ms' !! k = grown (bucket_of k cells) <$> ms !! k.
Proof.
  revert ms n. induction cells as [|it cells IH]; intros ms n Hall.
  - exists ms, n. split; [reflexivity|]. split; [reflexivity|].
    intros k. destruct (ms !! k); cbn; now rewrite ?grow_nil.
  - inversion Hall as [|? ? Hit Hrest]; subst.
    destruct (visit_Done ms n it Hit) as (ms1 & E1 & L1 & _).
    destruct (visit_lookup _ _ _ _ _ E1) as (_ & _ & K1).
    destruct (IH ms1 ((n + 1) mod 2 ^ 32)) as (ms' & n' & E & L & K).
    { eapply Forall_impl; [exact Hrest|]. cbn. intros it' H.
      now rewrite (level_ok_length ms1 ms). }
    exists ms', n'. split; [|split].
    + cbn [visit_all]. rewrite E1. exact E.
    + congruence.
    + intros k. rewrite K, K1.
      rewrite (bucket_cons k it cells), (bucket_cons k it []).
      replace (bucket_of k []) with (@nil OcTreeVolume) by reflexivity.
      destruct (ms !! k) as [m|]; cbn; [|reflexivity]. f_equal.
      destruct (decide _).
      * symmetry. apply grow_cons.
      * now rewrite grow_nil.
Qed.

(** Conversely, a loop that ran to its end met no failing assertion. *)
Lemma visit_all_inv (cells : list OcTreeVolume) (ms ms' : list Marker.t) (n n' : Z) :
  visit_all log2 srv minZ maxZ lowestRes (ms, n) cells = Done (ms', n') ->
  Forall (fun it => level_ok ms (level_of it) = true) cells.
Proof.
  revert ms n. induction cells as [|it cells IH]; intros ms n E; [constructor|].
  cbn [visit_all] in E.
  destruct (visit log2 srv minZ maxZ lowestRes (ms, n) it) as [[ms1 n1]|] eqn:E1;
    [|discriminate E].
  destruct (visit_lookup _ _ _ _ _ E1) as (Hok & L1 & _).
  constructor; [exact Hok|].
  eapply Forall_impl; [exact (IH ms1 n1 E)|]. cbn. intros it' H.
  now rewrite (level_ok_length ms ms1).
Qed.

Lemma visit_all_fails (pre post : list OcTreeVolume) (it : OcTreeVolume)
    (ms : list Marker.t) (n : Z) :
  Forall (fun it => level_ok ms (level_of it) = true) pre ->
  level_ok ms (level_of it) = false ->
  visit_all log2 srv minZ maxZ lowestRes (ms, n) (pre ++ it :: post) = AssertionFailed.
Proof.
  revert ms n. induction pre as [|it0 pre IH]; intros ms n Hall Hbad.
  - cbn [app visit_all]. now rewrite visit_fails.
  - inversion Hall as [|? ? Hit Hrest]; subst.
    destruct (visit_Done ms n it0 Hit) as (ms1 & E1 & L1 & _).
    cbn [app visit_all]. rewrite E1. cbn. apply IH.
    + eapply Forall_impl; [exact Hrest|]. cbn. intros it' H.
      now rewrite (level_ok_length ms1 ms).
    + now rewrite (level_ok_length ms1 ms).
Qed.

(** The second loop rewrites every marker in place. *)
Lemma finish_from_lookup (n a : nat) (ms : list Marker.t) (j : nat) :
  foldl (fun ms i => alter (finish now srv lowestRes i) i ms) ms (seq a n) !! j =
  if decide (a <= j < a + n)%nat then finish now srv lowestRes j <$> ms !! j
  else ms !! j.
Proof.
  revert a ms. induction n as [|n IH]; intros a ms; cbn [seq foldl].
  - destruct (decide _); [lia|reflexivity].
  - rewrite IH. destruct (decide (a = j)) as [->|Hne].
    + rewrite list_lookup_alter_eq.
      destruct (decide (S j <= j < S j + n)%nat); [lia|].
      destruct (decide (j <= j < j + S n)%nat); [reflexivity|lia].
    + rewrite list_lookup_alter_ne by assumption.
      destruct (decide (S a <= j < S a + n)%nat);
        destruct (decide (a <= j < a + S n)%nat); try reflexivity; lia.
Qed.

Lemma finish_all_lookup (ms : list Marker.t) (j : nat) :
  finish_all now srv lowestRes ms !! j = finish now srv lowestRes j <$> ms !! j.
Proof.
  unfold finish_all. rewrite finish_from_lookup.
  destruct (decide _) as [|H]; [reflexivity|].
  rewrite (proj2 (lookup_ge_None ms j)) by lia. reflexivity.
Qed.

Lemma finish_all_length (ms : list Marker.t) :
  length (finish_all now srv lowestRes ms) = length ms.
Proof.
  unfold finish_all. generalize (seq 0 (length ms)) as l. intros l.
  revert ms. induction l as [|i l IH]; intros ms; cbn; [reflexivity|].
  now rewrite IH, length_alter.
Qed.

End Loops.

(** ** Powers of two *)

(** [pow2 k] is the number [2^k]: mantissa [2^52], exponent [k - 52]. *)
Lemma pow2_spec (k : nat) :
  (k <= 1023)%nat ->
  Double.pow2 k = S754_finite false 4503599627370496 (Z.of_nat k - 52).
Proof.
  intros Hk. unfold Double.pow2, binary_normalize.
  destruct (D[binary_round_spec] false 1 (Z.of_nat k)) as (m2 & -> & _ & _ & X & _).
  change (Zpos (digits2_pos 1)) with 1 in *. double_consts.
  replace (Z.max (1 + Z.of_nat k - 53) (3 - 1024 - 53)) with (Z.of_nat k - 52) in * by lia.
  rewrite (X ltac:(lia)). replace (Z.of_nat k - (Z.of_nat k - 52)) with 52 by lia.
  change (1 * 2 ^ 52 =? 2 ^ 53) with false. cbv iota.
  rewrite pack_pos by lia. reflexivity.
Qed.

Lemma div_eucl_exact (a b : Z) :
  0 < b -> Z.div_eucl (b * a) b = (a, 0).
Proof.
  intros Hb. pose proof (Z.div_mul a b ltac:(lia)) as Hq.
  pose proof (Z.mod_mul a b ltac:(lia)) as Hr.
  rewrite Z.mul_comm in Hq, Hr. unfold Z.div, Z.modulo in Hq, Hr.
  destruct (Z.div_eucl (b * a) b) as [q r]. now subst.
Qed.

(** Scaling a finite number by [2^k] and dividing by the number again
    gives [2^k] back, unless the product overflows. *)
Lemma div_mul_pow2 (x : Double.t) (k : nat) :
  Double.valid x = true -> (k < 16)%nat ->
  (exists s m e, x = S754_finite s m e) ->
  Double.finite (Double.mul x (Double.pow2 k)) = true ->
  Double.div (Double.mul x (Double.pow2 k)) x = Double.pow2 k.
Proof.
  intros Hv Hk (s & m & e & ->) Hfin.
  rewrite pow2_spec in * by lia.
  unfold Double.valid in Hv. cbn [valid_binary] in Hv.
  apply D[bounded_inv] in Hv as (Ce & Ee & Dm & Em & Nm).
  pose proof (digits2_bounds m) as [Lo Hi].
  set (M := (m * 4503599627370496)%positive).
  assert (HM : Zpos M = Zpos m * 2 ^ 52) by (unfold M; lia).
  assert (HdM : Zpos (digits2_pos M) = Zpos (digits2_pos m) + 52)
    by (apply (digits2_shift m M 52); [lia|exact HM]).
  remember (Zpos (digits2_pos m)) as d eqn:Ed.
  assert (Hd : 0 < d) by lia.
  set (K := Z.of_nat k) in *. assert (HK : 0 <= K < 16) by lia.
  unfold Double.mul in *. cbn [SFmul] in *. rewrite xorb_false_r in *. fold M in Hfin |- *.
  destruct (D[bra_spec] s M (e + (K - 52))) as (m2 & _ & X & Hm1 & R).
  { rewrite HdM. double_consts. lia. }
  rewrite HdM in X, Hm1, R.
  replace (d + 52 + (e + (K - 52))) with (d + e + K) in * by lia.
  set (e1 := SpecFloat.fexp Double.prec Double.emax (d + e + K)) in *.
  assert (He1 : e1 = Z.max (d + e + K - 53) (-1074)) by reflexivity.
  double_consts.
  set (n := e1 - (e + (K - 52))) in *.
  assert (Hn : 0 <= n <= 52) by (unfold n; lia).
  assert (Pn : 0 < 2 ^ n) by (apply Z.pow_pos_nonneg; lia).
  assert (HMn : Zpos M = Zpos m * 2 ^ (52 - n) * 2 ^ n).
  { rewrite HM, <- Z.mul_assoc, <- Z.pow_add_r by lia. do 2 f_equal. lia. }
  rewrite HMn, Z.mod_mul, Z.div_mul in X by lia. specialize (X eq_refl). subst m2.
  rewrite HMn, Z.div_mul in Hm1 by lia.
  set (m1 := Zpos m * 2 ^ (52 - n)) in *.
  assert (Pm1 : 0 < m1) by (unfold m1; apply Z.mul_pos_pos; [lia|apply Z.pow_pos_nonneg; lia]).
  destruct (Z.eqb_spec m1 (2 ^ 53)) as [|_]; [lia|].
  rewrite R in Hfin |- *. clear R.
  assert (He971 : e1 <= 971).
  { destruct (Z.leb_spec e1 971) as [|G]; [assumption|]. exfalso.
    unfold pack in Hfin. destruct m1; try lia.
    rewrite (proj2 (Z.leb_gt _ _)) in Hfin by lia. discriminate Hfin. }
  rewrite pack_pos by lia.
  (* the division *)
  unfold Double.div. cbn [SFdiv]. unfold SFdiv_core_binary. cbn [Zdigits2].
  assert (Hd1 : Zpos (digits2_pos (Z.to_pos m1)) = d + (52 - n)).
  { rewrite Ed. apply (digits2_shift m (Z.to_pos m1) (52 - n)); [lia|].
    rewrite Z2Pos.id by lia. reflexivity. }
  rewrite Hd1, <- Ed. double_consts.
  replace (d + (52 - n) + e1 - (d + e)) with K by (unfold n; lia).
  replace (Z.min (Z.max (K - 53) (3 - 1024 - 53)) (e1 - e)) with (K - 53) by lia.
  replace (e1 - e - (K - 53)) with (n + 1) by (unfold n; lia).
  destruct (n + 1) as [|p|p] eqn:En1; try lia. rewrite <- En1.
  rewrite Z.shiftl_mul_pow2, Z2Pos.id by lia.
  replace (m1 * 2 ^ (n + 1)) with (Zpos m * 2 ^ 53).
  2:{ unfold m1. rewrite <- Z.mul_assoc, <- Z.pow_add_r by lia. do 2 f_equal. lia. }
  rewrite div_eucl_exact by lia.
  replace (new_location (Zpos m) 0) with loc_Exact
    by (unfold new_location; destruct (Z.even (Zpos m)); reflexivity).
  rewrite xorb_nilpotent.
  change (2 ^ 53) with (Zpos 9007199254740992).
  destruct (D[bra_spec] false 9007199254740992 (K - 53)) as (m2 & _ & X & _ & R).
  { change (Zpos (digits2_pos 9007199254740992)) with 54. double_consts. lia. }
  change (Zpos (digits2_pos 9007199254740992)) with 54 in *. double_consts.
  rewrite R. clear R.
  replace (Z.max (54 + (K - 53) - 53) (3 - 1024 - 53)) with (K - 52) in * by lia.
  replace (K - 52 - (K - 53)) with 1 in X by lia.
  rewrite (X eq_refl). change (9007199254740992 / 2 ^ 1 =? 2 ^ 53) with false. cbv iota.
  rewrite pack_pos by (try reflexivity; lia). reflexivity.
Qed.

(** ** [readMap] as a whole *)

Lemma lookup_resize_fresh (k : nat) :
  (k < 16)%nat -> resize 16 Marker.default [] !! k = Some Marker.default.
Proof. intros Hk. do 16 (destruct k as [|k]; [reflexivity|]). lia. Qed.

Section ReadMapFacts.

Variable log2 : Double.t -> Double.t.
Variable now : nat -> ros_time.
Variable srv : OctomapServer.
Variable map : OcTree.

Local Abbreviation minZ := (z (getMetricMin map)).
Local Abbreviation maxZ := (z (getMetricMax map)).
Local Abbreviation lowestRes := (getResolution map).
Local Abbreviation resized := (resize 16 Marker.default (m_occupiedCellsVis srv)).

Lemma Forall_in_range (cells : list OcTreeVolume) :
  Forall (in_range log2 lowestRes) cells <->
  Forall (fun it => level_ok resized (level log2 lowestRes it) = true) cells.
Proof.
  apply Forall_iff. intros it. symmetry. apply level_ok_16. apply length_resize.
Qed.

(** When every cube passes the assertion, [readMap] completes: marker [k]
    is the resized marker [k] with the cubes of level [k] appended and the
    header fields rewritten. *)
Lemma readMap_Done :
  Forall (in_range log2 lowestRes) (getOccupied map) ->
  exists srv',
    readMap log2 now srv map = Done srv' /\
    length (m_occupiedCellsVis srv') = 16%nat /\
    forall k,
      m_occupiedCellsVis srv' !! k =
      (fun m => finish now srv lowestRes k
                  (grow srv minZ maxZ (bucket log2 lowestRes k (getOccupied map)) m))
        <$> resized !! k.
Proof.
  intros Hall. apply Forall_in_range in Hall.
  destruct (visit_all_Done log2 srv minZ maxZ lowestRes _ _ 0 Hall)
    as (ms & n & E & L & K).
  unfold readMap. rewrite E. cbn [mbind outcome_bind].
  eexists. split; [reflexivity|]. cbn [m_occupiedCellsVis]. split.
  - now rewrite finish_all_length, L, length_resize.
  - intros k. rewrite finish_all_lookup, K. now destruct (resized !! k).
Qed.

Lemma readMap_fails (pre post : list OcTreeVolume) (it : OcTreeVolume) :
  getOccupied map = pre ++ it :: post ->
  Forall (in_range log2 lowestRes) pre ->
  ~ in_range log2 lowestRes it ->
  readMap log2 now srv map = AssertionFailed.
Proof.
  intros Hocc Hpre Hbad. apply Forall_in_range in Hpre.
  unfold readMap. rewrite Hocc.
  rewrite (visit_all_fails log2 srv minZ maxZ lowestRes pre post it); [reflexivity|exact Hpre|].
  destruct (level_ok _ _) eqn:Hok; [|reflexivity]. exfalso. apply Hbad.
  apply (level_ok_16 log2 lowestRes resized); [apply length_resize|exact Hok].
Qed.

Lemma readMap_inv (srv' : OctomapServer) :
  readMap log2 now srv map = Done srv' ->
  Forall (in_range log2 lowestRes) (getOccupied map).
Proof.
  unfold readMap. intros E. apply Forall_in_range.
  destruct (visit_all log2 srv minZ maxZ lowestRes (resized, 0) (getOccupied map))
    as [[ms n]|] eqn:E1; [|discriminate E].
  exact (visit_all_inv log2 srv minZ maxZ lowestRes _ _ _ _ _ E1).
Qed.

(** On a server without markers, marker [k] of the result is a new
    marker with the cubes of level [k] appended and the header written. *)
Lemma readMap_fresh (srv' : OctomapServer) (k : nat) :
  m_occupiedCellsVis srv = [] ->
  readMap log2 now srv map = Done srv' ->
  (k < 16)%nat ->
  m_occupiedCellsVis srv' !! k =
  Some (finish now srv lowestRes k
          (grow srv minZ maxZ (bucket log2 lowestRes k (getOccupied map))
                Marker.default)).
Proof.
  intros Hnil E Hk.
  destruct (readMap_Done (readMap_inv srv' E)) as (srv'' & E' & _ & K).
  rewrite E in E'. injection E' as <-. rewrite K, Hnil.
  now rewrite lookup_resize_fresh.
Qed.

End ReadMapFacts.

Ltac in_range_by_computation :=
  unfold in_range; vm_compute; split; [discriminate|reflexivity].

(** ** The level of a cube (C1) *)

Lemma to_int_round_small (k : nat) :
  (k < 16)%nat ->
  Double.to_int (Double.add (Double.of_int (Z.of_nat k)) Double.half) = Z.of_nat k.
Proof.
  intros Hk. do 16 (destruct k as [|k]; [vm_compute; reflexivity|]). lia.
Qed.

(** C1: for a cube whose edge is [lowestRes * 2^k], with [k] below 16,
    the ratio of edge and resolution is [2^k] exactly, the level index --
    its binary logarithm, rounded -- is [k], and one turn of the loop
    appends the centre of the cube to marker [k] and leaves every other
    marker as it was.  The C library's [log2] is taken to be exact
    on the powers of two [2^0 .. 2^15]; the resolution is a finite
    nonzero number and the product does not overflow. *)
Theorem cube_of_level_k_goes_to_bucket_k
    (log2 : Double.t -> Double.t) (srv : OctomapServer)
    (minZ maxZ lowestRes : Double.t) (ms : list Marker.t) (n : Z)
    (it : OcTreeVolume) (k : nat) :
  (forall j, (j < 16)%nat -> log2 (Double.pow2 j) = Double.of_int (Z.of_nat j)) ->
  Double.valid lowestRes = true ->
  (exists s m e, lowestRes = S754_finite s m e) ->
  (k < 16)%nat -> length ms = 16%nat ->
  second it = Double.mul lowestRes (Double.pow2 k) ->
  Double.finite (second it) = true ->
  Double.div (second it) lowestRes = Double.pow2 k /\
  level log2 lowestRes it = Z.of_nat k /\
  exists ms',
    visit log2 srv minZ maxZ lowestRes (ms, n) it = Done (ms', (n + 1) mod 2 ^ 32) /\
    (exists m m', ms !! k = Some m /\ ms' !! k = Some m' /\
       Marker.points m' = Marker.points m ++ [center it]) /\
    (forall j, j <> k -> ms' !! j = ms !! j).
Proof.
  intros Hlog Hv Hfin Hk Hlen Hsize Hprod.
  assert (Hratio : Double.div (second it) lowestRes = Double.pow2 k).
  { rewrite Hsize in Hprod |- *. now apply div_mul_pow2. }
  assert (Hlevel : level log2 lowestRes it = Z.of_nat k).
  { unfold level. rewrite Hratio, Hlog by assumption. now apply to_int_round_small. }
  split; [exact Hratio|]. split; [exact Hlevel|].
  assert (Hok : level_ok ms (level log2 lowestRes it) = true).
  { apply level_ok_spec. rewrite Hlevel. lia. }
  destruct (visit_Done log2 srv minZ maxZ lowestRes ms n it Hok) as (ms' & E & L & K1 & K2).
  rewrite Hlevel, Nat2Z.id in K1, K2.
  exists ms'. split; [exact E|]. split; [|exact K2].
  destruct (ms !! k) as [m|] eqn:Hm.
  - exists m, (grow srv minZ maxZ [it] m).
    split; [reflexivity|]. split; [exact K1|]. reflexivity.
  - apply lookup_ge_None in Hm. lia.
Qed.

Lemma cube_of_level_k_witness :
  Double.div (second (cube d5 d5 Double.one (Double.mul d0_1 (Double.pow2 2)))) d0_1 =
    Double.pow2 2 /\
  level ilog2 d0_1 (cube d5 d5 Double.one (Double.mul d0_1 (Double.pow2 2))) = 2 /\
  exists ms',
    visit ilog2 default_server Double.zero d10 d0_1
      (resize 16 Marker.default [], 0)
      (cube d5 d5 Double.one (Double.mul d0_1 (Double.pow2 2))) =
    Done (ms', (0 + 1) mod 2 ^ 32) /\
    (exists m m', resize 16 Marker.default [] !! 2%nat = Some m /\
       ms' !! 2%nat = Some m' /\
       Marker.points m' =
       Marker.points m ++ [center (cube d5 d5 Double.one (Double.mul d0_1 (Double.pow2 2)))]) /\
    (forall j, j <> 2%nat -> ms' !! j = resize 16 Marker.default [] !! j).
Proof.
  apply (cube_of_level_k_goes_to_bucket_k ilog2 default_server Double.zero d10 d0_1
           (resize 16 Marker.default []) 0
           (cube d5 d5 Double.one (Double.mul d0_1 (Double.pow2 2))) 2).
  - intros j Hj. do 16 (destruct j as [|j]; [vm_compute; reflexivity|]). lia.
  - reflexivity.
  - unfold d0_1. eauto.
  - lia.
  - reflexivity.
  - reflexivity.
  - reflexivity.
Defined.

(** ** The shape of the result (C3, C4, C8) *)

(** C3 as stated ("for every input the build emits the records") fails:
    on a tree holding a cube of [2^16] times the resolution the level
    index is 16, the assertion of the first loop ends the build, and
    nothing is emitted. *)
Lemma build_of_broken_tree_emits_nothing :
  ~ exists srv', readMap ilog2 clock default_server broken_tree = Done srv'.
Proof.
  assert (E : readMap ilog2 clock default_server broken_tree = AssertionFailed)
    by (vm_compute; reflexivity).
  rewrite E. intros [srv' H]. discriminate H.
Qed.

(** C3, amended: for every input on which no cube fails the level
    assertion, [readMap] completes with exactly 16 markers, marker [i]
    carrying the identifier [i] and the cube size [lowestRes * 2^i] on all
    three axes; markers without points are kept. *)
Theorem readMap_emits_sixteen_levels
    (log2 : Double.t -> Double.t) (now : nat -> ros_time)
    (srv : OctomapServer) (map : OcTree) :
  Forall (in_range log2 (getResolution map)) (getOccupied map) ->
  exists srv',
    readMap log2 now srv map = Done srv' /\
    length (m_occupiedCellsVis srv') = 16%nat /\
    forall i m, m_occupiedCellsVis srv' !! i = Some m ->
      Marker.id m = Z.of_nat i /\
      Marker.type m = Marker.CUBE_LIST /\
      Marker.scale m =
        mkPoint (Double.mul (getResolution map) (Double.pow2 i))
                (Double.mul (getResolution map) (Double.pow2 i))
                (Double.mul (getResolution map) (Double.pow2 i)).
Proof.
  intros Hall. destruct (readMap_Done log2 now srv map Hall) as (srv' & E & L & K).
  exists srv'. split; [exact E|]. split; [exact L|].
  intros i m Hm. rewrite K in Hm.
  destruct (resize 16 Marker.default (m_occupiedCellsVis srv) !! i) as [m0|];
    [|discriminate Hm].
  injection Hm as <-. repeat split.
Qed.

Lemma sample_tree_in_range :
  Forall (in_range ilog2 (getResolution sample_tree)) (getOccupied sample_tree).
Proof.
  unfold sample_tree. cbn [getOccupied getResolution].
  repeat (constructor; [in_range_by_computation|]). constructor.
Defined.

Lemma readMap_emits_sixteen_levels_witness :
  Forall (in_range ilog2 (getResolution sample_tree)) (getOccupied sample_tree) /\
  exists srv',
    readMap ilog2 clock default_server sample_tree = Done srv' /\
    length (m_occupiedCellsVis srv') = 16%nat /\
    forall i m, m_occupiedCellsVis srv' !! i = Some m ->
      Marker.id m = Z.of_nat i /\
      Marker.type m = Marker.CUBE_LIST /\
      Marker.scale m =
        mkPoint (Double.mul (getResolution sample_tree) (Double.pow2 i))
                (Double.mul (getResolution sample_tree) (Double.pow2 i))
                (Double.mul (getResolution sample_tree) (Double.pow2 i)).
Proof.
  split; [exact sample_tree_in_range|].
  apply (readMap_emits_sixteen_levels ilog2 clock default_server sample_tree).
  exact sample_tree_in_range.
Defined.



(** X7: read with the index as the program computes it, the assertion
    does what it says: when that index of a cube falls outside [[0, 16)], the
    assertion fails there and [readMap] ends without a result, whatever
    cubes follow; the cubes before it had all passed. *)
Theorem readMap_aborts_on_out_of_range_level
    (log2 : Double.t -> Double.t) (now : nat -> ros_time)
    (srv : OctomapServer) (map : OcTree)
    (pre post : list OcTreeVolume) (it : OcTreeVolume) :
  getOccupied map = pre ++ it :: post ->
  Forall (in_range log2 (getResolution map)) pre ->
  ~ in_range log2 (getResolution map) it ->
  readMap log2 now srv map = AssertionFailed.
Proof. apply readMap_fails. Qed.

Lemma readMap_aborts_witness :
  readMap ilog2 clock default_server broken_tree = AssertionFailed.
Proof.
  apply (readMap_aborts_on_out_of_range_level ilog2 clock default_server broken_tree
           [cube Double.zero Double.zero Double.zero d0_1]
           [cube d5 Double.zero d5 d0_1]
           root_cube).
  - reflexivity.
  - cbn [getResolution broken_tree].
    repeat (constructor; [in_range_by_computation|]). constructor.
  - unfold in_range. vm_compute. intros [_ H]. discriminate H.
Defined.

(** C8: the second loop keeps the points and the colours of every marker
    and sets its action by the points the marker held when the loop
    began: [ADD] exactly when there are some, [DELETE] exactly when there
    are none.  After [readMap] on a server without markers, marker [k]
    holds the cubes of level [k] and carries [ADD] exactly when the tree
    has such a cube; a tree without occupied cubes gives 16 markers that
    all carry [DELETE]. *)
Theorem action_tells_whether_level_is_populated :
  (forall (now : nat -> ros_time) (srv : OctomapServer) (lowestRes : Double.t)
          (ms : list Marker.t) (i : nat) (m : Marker.t),
      ms !! i = Some m ->
      exists m',
        finish_all now srv lowestRes ms !! i = Some m' /\
        Marker.points m' = Marker.points m /\
        Marker.colors m' = Marker.colors m /\
        (Marker.action m' = Marker.ADD <-> Marker.points m <> []) /\
        (Marker.action m' = Marker.DELETE <-> Marker.points m = [])) /\
  (forall (log2 : Double.t -> Double.t) (now : nat -> ros_time)
          (srv srv' : OctomapServer) (map : OcTree) (k : nat),
      m_occupiedCellsVis srv = [] ->
      readMap log2 now srv map = Done srv' ->
      (k < 16)%nat ->
      exists m',
        m_occupiedCellsVis srv' !! k = Some m' /\
        Marker.points m' =
          List.map center (bucket log2 (getResolution map) k (getOccupied map)) /\
        (Marker.action m' = Marker.ADD <->
           bucket log2 (getResolution map) k (getOccupied map) <> []) /\
        (Marker.action m' = Marker.DELETE <->
           bucket log2 (getResolution map) k (getOccupied map) = [])) /\
  (forall (log2 : Double.t -> Double.t) (now : nat -> ros_time)
          (srv : OctomapServer) (map : OcTree),
      m_occupiedCellsVis srv = [] -> getOccupied map = [] ->
      exists srv',
        readMap log2 now srv map = Done srv' /\
        length (m_occupiedCellsVis srv') = 16%nat /\
        Forall (fun m => Marker.action m = Marker.DELETE /\ Marker.points m = [])
               (m_occupiedCellsVis srv')).
Proof.
  split; [|split].
  - intros now srv lowestRes ms i m Hm.
    exists (finish now srv lowestRes i m). split.
    + now rewrite finish_all_lookup, Hm.
    + cbn [finish Marker.action Marker.points Marker.colors].
      split; [reflexivity|]. split; [reflexivity|].
      destruct (Marker.points m) as [|p ps]; cbn; unfold Marker.ADD, Marker.DELETE;
        split; split; intros H; try reflexivity; try discriminate H; try congruence.
  - intros log2 now srv srv' map k Hfresh E Hk. eexists. split.
    + exact (readMap_fresh log2 now srv map srv' k Hfresh E Hk).
    + cbn [finish grow Marker.action Marker.points Marker.default app].
      split; [reflexivity|].
      destruct (bucket log2 (getResolution map) k (getOccupied map)) as [|it its];
        cbn; unfold Marker.ADD, Marker.DELETE;
        split; split; intros H; try reflexivity; try discriminate H; try congruence.
  - intros log2 now srv map Hfresh Hocc.
    assert (Hall : Forall (in_range log2 (getResolution map)) (getOccupied map))
      by (rewrite Hocc; constructor).
    destruct (readMap_Done log2 now srv map Hall) as (srv' & E & L & K).
    exists srv'. split; [exact E|]. split; [exact L|].
    apply Forall_lookup. intros i m Hm. rewrite K, Hfresh, Hocc in Hm.
    destruct (resize 16 Marker.default [] !! i) as [m0|] eqn:H0; [|discriminate Hm].
    injection Hm as <-.
    assert (m0 = Marker.default) as ->.
    { assert (i < 16)%nat by (apply lookup_lt_Some in H0; now rewrite length_resize in H0).
      rewrite lookup_resize_new in H0 by (cbn; lia). congruence. }
    split; reflexivity.
Qed.

(** The sample tree: marker 0 holds two cubes and carries [ADD], marker 3
    holds none and carries [DELETE]; the tree without cubes gives
    [DELETE] throughout. *)
Lemma action_witness :
  (exists srv' m0 m3,
     readMap ilog2 clock default_server sample_tree = Done srv' /\
     m_occupiedCellsVis srv' !! 0%nat = Some m0 /\
     length (Marker.points m0) = 2%nat /\ Marker.action m0 = Marker.ADD /\
     m_occupiedCellsVis srv' !! 3%nat = Some m3 /\
     Marker.points m3 = [] /\ Marker.action m3 = Marker.DELETE) /\
  exists srv',
    readMap ilog2 clock default_server empty_tree = Done srv' /\
    length (m_occupiedCellsVis srv') = 16%nat /\
    Forall (fun m => Marker.action m = Marker.DELETE /\ Marker.points m = [])
           (m_occupiedCellsVis srv').
Proof.
  destruct action_tells_whether_level_is_populated as (_ & H2 & H3). split.
  - destruct (readMap ilog2 clock default_server sample_tree) as [srv'|] eqn:E;
      [|exfalso; vm_compute in E; discriminate E].
    destruct (H2 ilog2 clock default_server srv' sample_tree 0%nat eq_refl E)
      as (m0 & L0 & P0 & A0 & _); [lia|].
    destruct (H2 ilog2 clock default_server srv' sample_tree 3%nat eq_refl E)
      as (m3 & L3 & P3 & _ & D3); [lia|].
    exists srv', m0, m3. split; [reflexivity|].
    split; [exact L0|]. split; [rewrite P0; vm_compute; reflexivity|].
    split; [apply A0; vm_compute; discriminate|].
    split; [exact L3|]. split; [rewrite P3; vm_compute; reflexivity|].
    apply D3. vm_compute. reflexivity.
  - apply (H3 ilog2 clock default_server empty_tree); reflexivity.
Defined.

(** ** Points and colours (C5) *)

(** The markers of a new server, once resized, are 16 empty ones. *)
Lemma lookup_fresh (k : nat) (m0 : Marker.t) :
  resize 16 Marker.default [] !! k = Some m0 -> m0 = Marker.default.
Proof.
  intros H0.
  assert (k < 16)%nat by (apply lookup_lt_Some in H0; now rewrite length_resize in H0).
  rewrite lookup_resize_new in H0 by (cbn; lia). congruence.
Qed.

(** C5: with height colouring on, after any number of turns of the first
    loop (the cubes [cells] processed so far, starting from the 16 empty
    markers of a new server), every marker holds as many colours as
    points, and its points and colours are the centres and the colours of
    one and the same list of cubes, in the same order; the same is true
    of the markers [readMap] leaves behind. *)
Theorem points_and_colors_stay_parallel
    (log2 : Double.t -> Double.t) (now : nat -> ros_time) (srv : OctomapServer) :
  m_useHeightMap srv = true ->
  (forall (minZ maxZ lowestRes : Double.t) (cells : list OcTreeVolume)
          (ms : list Marker.t) (n : Z),
      visit_all log2 srv minZ maxZ lowestRes (resize 16 Marker.default [], 0) cells
        = Done (ms, n) ->
      forall k m, ms !! k = Some m ->
        length (Marker.points m) = length (Marker.colors m) /\
        exists src : list OcTreeVolume,
          Marker.points m = map center src /\
          Marker.colors m = map (colorOf srv minZ maxZ) src) /\
  (forall (tree : OcTree) (srv' : OctomapServer),
      m_occupiedCellsVis srv = [] ->
      readMap log2 now srv tree = Done srv' ->
      forall k m, m_occupiedCellsVis srv' !! k = Some m ->
        length (Marker.points m) = length (Marker.colors m) /\
        exists src : list OcTreeVolume,
          Marker.points m = map center src /\
          Marker.colors m =
            map (colorOf srv (z (getMetricMin tree)) (z (getMetricMax tree))) src).
Proof.
  intros Hh. split.
  - intros minZ maxZ lowestRes cells ms n E k m Hm.
    pose proof (visit_all_inv log2 srv minZ maxZ lowestRes _ _ _ _ _ E) as Hall.
    destruct (visit_all_Done log2 srv minZ maxZ lowestRes _ _ 0 Hall)
      as (ms' & n' & E' & _ & K).
    rewrite E in E'. injection E' as <- <-.
    rewrite K in Hm.
    destruct (resize 16 Marker.default [] !! k) as [m0|] eqn:H0; [|discriminate Hm].
    injection Hm as <-. apply lookup_fresh in H0 as ->.
    unfold grow. rewrite Hh. cbn [Marker.points Marker.colors Marker.default app].
    split; [now rewrite !length_map|]. now exists (bucket log2 lowestRes k cells).
  - intros tree srv' Hfresh E k m Hm.
    pose proof (readMap_inv log2 now srv tree srv' E) as Hall.
    destruct (readMap_Done log2 now srv tree Hall) as (srv'' & E' & _ & K).
    rewrite E in E'. injection E' as <-.
    rewrite K, Hfresh in Hm.
    destruct (resize 16 Marker.default [] !! k) as [m0|] eqn:H0; [|discriminate Hm].
    injection Hm as <-. apply lookup_fresh in H0 as ->.
    unfold finish, grow. rewrite Hh.
    cbn [Marker.points Marker.colors Marker.default app].
    split; [now rewrite !length_map|].
    now exists (bucket log2 (getResolution tree) k (getOccupied tree)).
Qed.

Lemma points_and_colors_witness :
  exists srv',
    readMap ilog2 clock default_server sample_tree = Done srv' /\
    forall k m, m_occupiedCellsVis srv' !! k = Some m ->
      length (Marker.points m) = length (Marker.colors m) /\
      exists src : list OcTreeVolume,
        Marker.points m = map center src /\
        Marker.colors m =
          map (colorOf default_server (z (getMetricMin sample_tree))
                       (z (getMetricMax sample_tree))) src.
Proof.
  destruct (readMap ilog2 clock default_server sample_tree) as [srv'|] eqn:E.
  - exists srv'. split; [reflexivity|].
    destruct (points_and_colors_stay_parallel ilog2 clock default_server eq_refl)
      as [_ H].
    apply (H sample_tree srv'); [reflexivity|exact E].
  - exfalso. vm_compute in E. discriminate E.
Defined.

(** ** The height fraction (C6, C7) *)

Lemma heightFraction_hFraction (colorFactor minZ maxZ zc : Double.t) :
  heightFraction colorFactor minZ maxZ zc = hFraction zc minZ maxZ colorFactor.
Proof.
  unfold heightFraction, hFraction, clamp, Double.min, Double.max.
  destruct (Double.ltb _ Double.zero); [reflexivity|].
  destruct (Double.ltb Double.one _); reflexivity.
Qed.

(** C6: the first loop colours a cube by
    [hFraction = (1 - clamp((z - zMin)/(zMax - zMin), 0, 1)) * colorFactor];
    with [zMin = 0], [zMax = 10] and [colorFactor = 0.8] a cube at height 0
    gets the fraction [0.8], one at height 10 the fraction [0], and the two
    colours that result are fixed and different. *)
Theorem height_fraction_formula :
  (forall colorFactor minZ maxZ zc : Double.t,
      heightFraction colorFactor minZ maxZ zc = hFraction zc minZ maxZ colorFactor) /\
  (forall (log2 : Double.t -> Double.t) (srv : OctomapServer)
          (minZ maxZ lowestRes : Double.t) (ms : list Marker.t) (n : Z)
          (it : OcTreeVolume),
      m_useHeightMap srv = true ->
      level_ok ms (level log2 lowestRes it) = true ->
      exists ms' m m',
        visit log2 srv minZ maxZ lowestRes (ms, n) it = Done (ms', (n + 1) mod 2 ^ 32) /\
        ms !! Z.to_nat (level log2 lowestRes it) = Some m /\
        ms' !! Z.to_nat (level log2 lowestRes it) = Some m' /\
        Marker.colors m' =
          Marker.colors m ++
          [heightMapColor (hFraction (z (first it)) minZ maxZ (m_colorFactor srv))]) /\
  hFraction Double.zero Double.zero d10 d0_8 = d0_8 /\
  hFraction d10 Double.zero d10 d0_8 = Double.zero /\
  heightMapColor d0_8 =
    mkColorRGBA (S754_finite false 13421773 (-24)) Single.zero Single.one Single.one /\
  heightMapColor Double.zero =
    mkColorRGBA Single.one Single.zero Single.zero Single.one /\
  heightMapColor d0_8 <> heightMapColor Double.zero.
Proof.
  split; [exact heightFraction_hFraction|]. split.
  - intros log2 srv minZ maxZ lowestRes ms n it Hh Hok.
    destruct (visit_Done log2 srv minZ maxZ lowestRes ms n it Hok) as (ms' & E & L & K1 & _).
    apply level_ok_spec in Hok as [_ Hlt].
    destruct (ms !! Z.to_nat (level log2 lowestRes it)) as [m|] eqn:Hm.
    + exists ms', m, (grow srv minZ maxZ [it] m).
      split; [exact E|]. split; [reflexivity|]. split; [exact K1|].
      unfold grow. rewrite Hh. cbn [Marker.colors map]. unfold colorOf.
      now rewrite heightFraction_hFraction.
    + apply lookup_ge_None in Hm. lia.
  - repeat split; try (vm_compute; reflexivity).
    vm_compute. intros H. discriminate H.
Qed.

Lemma height_fraction_witness :
  exists ms' m m',
    visit ilog2 default_server Double.zero d10 d0_1 (resize 16 Marker.default [], 0)
      (cube Double.one Double.zero d10 d0_1) = Done (ms', (0 + 1) mod 2 ^ 32) /\
    resize 16 Marker.default [] !!
      Z.to_nat (level ilog2 d0_1 (cube Double.one Double.zero d10 d0_1)) = Some m /\
    ms' !! Z.to_nat (level ilog2 d0_1 (cube Double.one Double.zero d10 d0_1)) = Some m' /\
    Marker.colors m' =
      Marker.colors m ++
      [heightMapColor
         (hFraction (z (first (cube Double.one Double.zero d10 d0_1))) Double.zero d10
            (m_colorFactor default_server))].
Proof.
  destruct height_fraction_formula as (_ & H & _).
  apply (H ilog2 default_server Double.zero d10 d0_1 (resize 16 Marker.default []) 0
           (cube Double.one Double.zero d10 d0_1)); reflexivity.
Defined.

Lemma sub_self (d : Double.t) :
  Double.finite d = true -> Double.sub d d = S754_zero false.
Proof.
  destruct d as [[|]|s| |s m e]; try discriminate; try reflexivity.
  intros _. unfold Double.sub. cbn [SFsub]. now rewrite Z.sub_diag.
Qed.





Lemma flat_tree_in_range :
  Forall (in_range ilog2 (getResolution flat_tree)) (getOccupied flat_tree).
Proof.
  unfold flat_tree. cbn [getOccupied getResolution].
  repeat (constructor; [in_range_by_computation|]). constructor.
Defined.



Example level_tree_colors :
  List.map (degenerateColor default_server (z (getMetricMin level_tree)))
           (getOccupied level_tree) =
  [ heightMapColor d0_8; fallbackColor; heightMapColor Double.zero ].
Proof. reflexivity. Qed.

(** The four cubes of the sample tree, of edge [r], [r], [2r] and [4r]:
    two points in marker 0, one in marker 1, one in marker 2, none in the
    others. *)
Example sample_tree_buckets :
  exists srv',
    readMap ilog2 clock default_server sample_tree = Done srv' /\
    map (fun m => length (Marker.points m)) (m_occupiedCellsVis srv') =
      [2; 1; 1; 0; 0; 0; 0; 0; 0; 0; 0; 0; 0; 0; 0; 0]%nat /\
    map Marker.action (m_occupiedCellsVis srv') =
      [0; 0; 0; 2; 2; 2; 2; 2; 2; 2; 2; 2; 2; 2; 2; 2].
Proof. eexists. split; [vm_compute; reflexivity|]. split; reflexivity. Qed.

(** ** Rounding from an inexact position, and division *)

(** Right shifts divide the mantissa, whatever the round and sticky bits
    were. *)
Lemma shr_iter_m (M : Z) (r s : bool) (k : nat) :
  0 <= M ->
  shr_m (Nat.iter k shr_1 (Build_shr_record M r s)) = M / 2 ^ Z.of_nat k.
Proof.
  intros HM. induction k as [|k IH].
  - cbn. now rewrite Z.div_1_r.
  - change (Nat.iter (S k) shr_1 ?x) with (shr_1 (Nat.iter k shr_1 x)).
    destruct (Nat.iter k shr_1 _) as [m' r' s'] eqn:E.
    cbn [shr_m] in IH.
    assert (0 <= m') by (rewrite IH; apply Z.div_pos; lia).
    rewrite shr_1_nonneg by assumption. cbn [shr_m].
    rewrite IH, Nat2Z.inj_succ, Z.pow_succ_r by lia.
    rewrite Z.div_div by lia. f_equal. lia.
Qed.

Lemma Zdigits2_bounds (M : Z) :
  0 <= M -> 0 <= Zdigits2 M /\ M < 2 ^ Zdigits2 M.
Proof.
  intros HM. destruct M as [|p|p]; [cbn; lia| |lia].
  cbn [Zdigits2]. pose proof (digits2_bounds p). lia.
Qed.

Section Division.

Variables prec emax : Z.
Hypothesis Hprec : 2 <= prec.
Hypothesis Hemax : prec < emax.

#[local] Set Default Proof Using "Hprec Hemax".

Local Abbreviation emin := (SpecFloat.emin prec emax).
Local Abbreviation fexp := (SpecFloat.fexp prec emax).

Local Notation "'F[' l ']'" := (l prec emax Hprec Hemax)
  (at level 0, l at level 200, only parsing).

Lemma shr_fexp_loc (M E : Z) (l : location) :
  0 <= M ->
  let e1 := fexp (Zdigits2 M + E) in
  E <= e1 ->
  exists mrs,
    shr_fexp prec emax M E l = (mrs, e1) /\ shr_m mrs = M / 2 ^ (e1 - E).
Proof.
  intros HM e1 Hle. unfold shr_fexp, shr. fold e1.
  destruct (e1 - E) as [|p|p] eqn:En; [| |lia].
  - eexists. split; [f_equal; lia|].
    rewrite Z.pow_0_r, Z.div_1_r. now destruct l as [|[| |]].
  - eexists. split; [f_equal; lia|]. rewrite iter_pos_nat.
    destruct l as [|[| |]]; cbn [shr_record_of_loc];
      rewrite shr_iter_m by lia; now rewrite positive_nat_Z.
Qed.

(** [binary_round_aux] from any position: as from an exact one, the
    mantissa is divided by [2^(e1 - E)] and rounded to [m1] or [m1 + 1]. *)
Lemma bra_loc_spec (s : bool) (M E : Z) (l : location) :
  0 <= M ->
  let e1 := fexp (Zdigits2 M + E) in
  let m1 := M / 2 ^ (e1 - E) in
  E <= e1 ->
  exists m2,
    (m2 = m1 \/ m2 = m1 + 1) /\
    0 <= m1 < 2 ^ prec /\
    binary_round_aux prec emax s M E l =
      (if m2 =? 2 ^ prec then pack prec emax s (2 ^ (prec - 1)) (e1 + 1)
       else pack prec emax s m2 e1).
Proof.
  intros HM e1 m1 Hle.
  destruct (shr_fexp_loc M E l HM Hle) as (mrs & E1 & Hm). fold e1 in E1, Hm.
  fold m1 in Hm.
  set (d := Zdigits2 M) in *.
  pose proof (Zdigits2_bounds M HM) as [Hd Dhi]. fold d in Hd, Dhi.
  assert (Hpow : 0 < 2 ^ (e1 - E)) by (apply Z.pow_pos_nonneg; lia).
  assert (Hm1 : 0 <= m1 < 2 ^ prec).
  { split; [apply Z.div_pos; lia|].
    apply Z.div_lt_upper_bound; [lia|].
    rewrite <- Z.pow_add_r by lia.
    assert (2 ^ d <= 2 ^ (e1 - E + prec)); [|lia].
    apply Z.pow_le_mono_r; [lia|]. unfold e1, SpecFloat.fexp. lia. }
  set (m2 := round_nearest_even (shr_m mrs) (loc_of_shr_record mrs)).
  exists m2.
  assert (C : m2 = m1 \/ m2 = m1 + 1).
  { unfold m2. rewrite Hm. apply round_nearest_even_cases. }
  split; [exact C|]. split; [exact Hm1|].
  unfold binary_round_aux. rewrite E1. fold m2.
  assert (P2 : 0 < 2 ^ prec) by (apply Z.pow_pos_nonneg; lia).
  pose proof (F[fexp_ge_emin] (d + E)) as Hge. fold e1 in Hge.
  destruct (Z.eqb_spec m2 (2 ^ prec)) as [Ecarry|Hnc].
  - unfold shr_fexp, shr. cbn [shr_record_of_loc].
    assert (Zdigits2 m2 = prec + 1) as ->.
    { rewrite Ecarry. destruct (2 ^ prec) as [|q|q] eqn:Eq; try lia.
      cbn [Zdigits2]. apply digits2_unique. rewrite <- Eq.
      replace (prec + 1 - 1) with prec by lia. split; [lia|].
      rewrite Z.pow_add_r, Z.pow_1_r; lia. }
    assert (fexp (prec + 1 + e1) - e1 = 1) as -> by (unfold SpecFloat.fexp; lia).
    cbn [SpecFloat.iter_pos]. rewrite Ecarry. rewrite shr_1_nonneg by lia.
    cbn [shr_m].
    replace (2 ^ prec / 2) with (2 ^ (prec - 1)).
    2:{ replace prec with (prec - 1 + 1) at 2 by lia.
        rewrite Z.pow_add_r, Z.pow_1_r by lia. now rewrite Z.div_mul by lia. }
    unfold pack. destruct (2 ^ (prec - 1)); reflexivity.
  - rewrite F[shr_fexp_noop]; [reflexivity|].
    destruct m2 as [|q|q] eqn:Eq; cbn [Zdigits2].
    + unfold SpecFloat.fexp. lia.
    + assert (Zpos (digits2_pos q) <= prec) by (apply digits2_le; lia).
      unfold SpecFloat.fexp. lia.
    + lia.
Qed.

Lemma bra_loc_valid (s : bool) (M E : Z) (l : location) :
  0 <= M -> E <= fexp (Zdigits2 M + E) ->
  valid_binary prec emax (binary_round_aux prec emax s M E l) = true.
Proof.
  intros HM Hle. destruct (bra_loc_spec s M E l HM Hle) as (m2 & C & Hm1 & ->).
  assert (0 < 2 ^ (prec - 1)) by (apply Z.pow_pos_nonneg; lia).
  destruct (Z.eqb_spec m2 (2 ^ prec)).
  - apply F[pack_valid]; [lia|]. intros _. apply F[canonical_carry], F[fexp_ge_emin].
  - apply F[pack_valid]; [lia|]. intros Hpos.
    destruct M as [|P|P]; [| |lia].
    + cbn [Zdigits2] in *. rewrite Z.div_0_l in C by (apply Z.pow_nonzero; lia).
      assert (m2 = 1) as -> by lia.
      unfold canonical_mantissa. apply Z.eqb_eq.
      change (Zpos (digits2_pos (Z.to_pos 1))) with 1.
      pose proof F[emin_le]. unfold SpecFloat.fexp in *. lia.
    + apply (F[canonical_rounded] P E m2 Hle C). lia.
Qed.

(** The quotient of two finite numbers is well-formed. *)
Lemma SFdiv_valid (x y : spec_float) :
  valid_binary prec emax (SFdiv prec emax x y) = true.
Proof.
  destruct x as [sx|sx| |sx mx ex], y as [sy|sy| |sy my ey]; try reflexivity.
  cbn [SFdiv]. unfold SFdiv_core_binary. cbn [Zdigits2].
  pose proof (digits2_bounds mx) as [Lx Hx]. pose proof (digits2_bounds my) as [Ly Hy].
  set (d1 := Zpos (digits2_pos mx)) in *. set (d2 := Zpos (digits2_pos my)) in *.
  assert (0 < d1) by (unfold d1; lia). assert (0 < d2) by (unfold d2; lia).
  set (D := d1 + ex - (d2 + ey)).
  set (e' := Z.min (fexp D) (ex - ey)).
  set (sh := ex - ey - e').
  assert (Hsh : 0 <= sh) by (unfold sh, e'; lia).
  set (m' := match sh with 0 => Zpos mx | Zpos _ => Z.shiftl (Zpos mx) sh | Zneg _ => 0 end).
  assert (Hm' : m' = Zpos mx * 2 ^ sh).
  { unfold m'. destruct sh as [|p|p] eqn:Es; [lia| |lia].
    now rewrite Z.shiftl_mul_pow2 by lia. }
  destruct (Z.div_eucl m' (Zpos my)) as [q r] eqn:Eqr.
  assert (Hq : q = m' / Zpos my) by (unfold Z.div; now rewrite Eqr).
  assert (Psh : 0 < 2 ^ sh) by (apply Z.pow_pos_nonneg; lia).
  assert (Hq0 : 0 <= q) by (rewrite Hq; apply Z.div_pos; lia).
  apply bra_loc_valid; [exact Hq0|].
  set (k := d1 - 1 + sh - d2).
  assert (Hk : 0 <= k -> 2 ^ k <= q).
  { intros Hk. rewrite Hq. apply Z.div_le_lower_bound; [lia|].
    assert (2 ^ d2 * 2 ^ k <= m'); [|nia].
    rewrite <- Z.pow_add_r by lia. replace (d2 + k) with (d1 - 1 + sh) by (unfold k; lia).
    rewrite Z.pow_add_r, Hm' by lia. nia. }
  assert (Hdq : D - e' <= Zdigits2 q \/ (q = 0 /\ D - e' <= 0)).
  { destruct (Z.le_gt_cases 0 k) as [Hk0|Hk0].
    - left. specialize (Hk Hk0). destruct q as [|p|p]; [lia| |lia].
      cbn [Zdigits2]. pose proof (digits2_ge p k Hk0 Hk). unfold k, sh, D in *. lia.
    - destruct q as [|p|p]; [right|left|lia].
      + unfold k, sh, D in *. lia.
      + cbn [Zdigits2]. pose proof (digits2_bounds p). unfold k, sh, D in *. lia. }
  pose proof F[emin_le].
  destruct Hdq as [Hdq|[-> Hdq]]; cbn [Zdigits2]; unfold e', SpecFloat.fexp in *; lia.
Qed.

(** When no alignment is needed, [binary_round] is [binary_round_aux]. *)
Lemma binary_round_bra (s : bool) (M : positive) (E : Z) :
  E <= fexp (Zpos (digits2_pos M) + E) ->
  binary_round prec emax s M E = binary_round_aux prec emax s (Zpos M) E loc_Exact.
Proof.
  intros Hle. unfold binary_round, shl_align.
  destruct (fexp (Zpos (digits2_pos M) + E) - E) eqn:En; try reflexivity. lia.
Qed.

End Division.

(** ** Further facts of binary64 arithmetic *)

Lemma div_valid (x y : Double.t) : Double.valid (Double.div x y) = true.
Proof. apply D[SFdiv_valid]. Qed.

Lemma mul_comm (x y : Double.t) : Double.mul x y = Double.mul y x.
Proof.
  unfold Double.mul.
  destruct x as [sx|sx| |sx mx ex], y as [sy|sy| |sy my ey]; cbn [SFmul];
    try reflexivity; try (now rewrite xorb_comm).
  now rewrite xorb_comm, Pos.mul_comm, Z.add_comm.
Qed.

Lemma mul_one_r (x : Double.t) :
  Double.valid x = true -> Double.mul x Double.one = x.
Proof. intros Hv. rewrite mul_comm. now apply mul_one_l. Qed.

(** A positive number of [[0, 1]] other than one: mantissa and exponent
    sum to at most zero digits. *)
Lemma unit01_digits (m : positive) (e : Z) :
  bounded Double.prec Double.emax m e = true -> e < -52 ->
  Zpos (digits2_pos m) + e <= 0 /\ Zpos m < 2 ^ 53.
Proof.
  intros Hb He. apply D[bounded_inv] in Hb as (_ & _ & Dm & _).
  double_consts. split; [lia|].
  pose proof (digits2_bounds m) as [_ Hi].
  assert (2 ^ Zpos (digits2_pos m) <= 2 ^ 53) by (apply Z.pow_le_mono_r; lia). lia.
Qed.

(** The product of two numbers of [[0, 1]] is in [[0, 1]]. *)
Lemma mul_unit (x y : Double.t) :
  unit01 Double.prec Double.emax x = true ->
  unit01 Double.prec Double.emax y = true ->
  unit01 Double.prec Double.emax (Double.mul x y) = true.
Proof.
  intros Hx Hy.
  destruct x as [sx|sx| |[|] mx ex]; try discriminate Hx;
    destruct y as [sy|sy| |[|] my ey]; try discriminate Hy; try reflexivity.
  assert (Vx : Double.valid (S754_finite false mx ex) = true)
    by exact (D[unit01_valid] _ Hx).
  assert (Vy : Double.valid (S754_finite false my ey) = true)
    by exact (D[unit01_valid] _ Hy).
  pose proof Hx as Ux. pose proof Hy as Uy.
  apply unit01_inv in Hx as [Bx [Ex|E1]];
    [|rewrite E1, mul_one_l; [exact Uy|exact Vy]].
  apply unit01_inv in Hy as [By [Ey|E1]];
    [|rewrite E1, mul_one_r; [exact Ux|exact Vx]].
  destruct (unit01_digits mx ex Bx Ex) as [Dx _].
  destruct (unit01_digits my ey By Ey) as [Dy _].
  pose proof (digits2_bounds mx) as [_ Hx]. pose proof (digits2_bounds my) as [_ Hy].
  set (dx := Zpos (digits2_pos mx)) in *. set (dy := Zpos (digits2_pos my)) in *.
  assert (0 < dx) by (unfold dx; lia). assert (0 < dy) by (unfold dy; lia).
  assert (HdM : Zpos (digits2_pos (mx * my)) <= dx + dy).
  { apply digits2_le; [lia|]. rewrite Pos2Z.inj_mul, Z.pow_add_r by lia. nia. }
  unfold Double.mul. cbn [SFmul xorb].
  rewrite <- D[binary_round_bra].
  - apply D[binary_round_unit]. lia.
  - apply D[bounded_inv] in Bx as (Cx & _ & _ & Emx & Nx).
    apply D[bounded_inv] in By as (Cy & _ & _ & Emy & Ny).
    pose proof (digits2_bounds mx) as [Lx _]. pose proof (digits2_bounds my) as [Ly _].
    fold dx in Lx, Cx, Nx. fold dy in Ly, Cy, Ny.
    assert (dx + dy - 1 <= Zpos (digits2_pos (mx * my))).
    { replace (dx + dy - 1) with (dx - 1 + (dy - 1) + 1) by lia.
      apply digits2_ge; [lia|]. rewrite Z.pow_add_r, Pos2Z.inj_mul by lia.
      apply Z.mul_le_mono_nonneg; try assumption; apply Z.pow_nonneg; lia. }
    double_consts. lia.
Qed.

Lemma compare_cont_Eq (a b : positive) :
  PosDef.Pos.compare_cont Eq a b = Pos.compare a b.
Proof. reflexivity. Qed.

(** [[0, 1]] in terms of the comparisons of the language. *)
Lemma unit01_of_range (x : Double.t) :
  Double.valid x = true -> in_unit_range x ->
  unit01 Double.prec Double.emax x = true.
Proof.
  intros Hv [H0 H1].
  destruct x as [s|s| |[|] m e];
    try (now destruct s; vm_compute in H0, H1);
    try (vm_compute in H0; discriminate H0).
  unfold Double.valid in Hv. cbn [valid_binary] in Hv.
  cbn [unit01]. rewrite Hv. cbn [andb].
  apply D[bounded_inv] in Hv as (Ce & _ & Dm & Em & Nm).
  pose proof (digits2_bounds m) as [Lo _].
  unfold Double.leb, SFleb, Double.one in H1. cbn [SFcompare] in H1.
  double_consts.
  destruct (Z.compare_spec e (-52)) as [->|Hlt|Hgt]; try discriminate H1.
  - rewrite compare_cont_Eq in H1.
    assert (Hd : Zpos (digits2_pos m) = 53) by lia.
    rewrite Hd in Lo. change (2 ^ (53 - 1)) with (Zpos 4503599627370496) in Lo |- *.
    destruct (Pos.compare_spec m 4503599627370496) as [->|Hl|Hg]; try discriminate H1.
    + reflexivity.
    + exfalso.
      exact (Z.lt_irrefl _ (Z.lt_le_trans (Zpos m) (Zpos 4503599627370496) (Zpos m) Hl Lo)).
  - apply orb_true_iff. left. apply Z.ltb_lt. clear - Hlt. lia.
Qed.

Lemma range_of_unit01 (x : Double.t) :
  unit01 Double.prec Double.emax x = true -> in_unit_range x.
Proof.
  intros H. apply D[unit01_leb] in H as [H0 H1]. split; assumption.
Qed.

(** [min(max(d, 0), 1)] is a NaN when [d] is, and a number of [[0, 1]]
    otherwise. *)
Lemma clamp_unit (d : Double.t) :
  Double.valid d = true ->
  match d with
  | S754_nan => Double.min (Double.max d Double.zero) Double.one = S754_nan
  | _ => unit01 Double.prec Double.emax
           (Double.min (Double.max d Double.zero) Double.one) = true
  end.
Proof.
  intros Hv. destruct d as [s|[|]| |[|] m e]; try reflexivity.
  - unfold Double.max. change (Double.ltb (S754_finite false m e) Double.zero) with false.
    cbv iota. unfold Double.min.
    destruct (Double.ltb Double.one (S754_finite false m e)) eqn:El; [reflexivity|].
    apply unit01_of_range; [exact Hv|]. split; [reflexivity|].
    unfold Double.ltb, SFltb, Double.leb, SFleb, Double.one in *.
    cbn [SFcompare] in *.
    destruct (Z.compare_spec (-52) e) as [<-|Hlt|Hgt]; try discriminate El.
    + rewrite Z.compare_refl.
      rewrite !compare_cont_Eq in *.
      rewrite (Pos.compare_antisym 4503599627370496 m).
      destruct (Pos.compare 4503599627370496 m); try discriminate El; reflexivity.
    + now rewrite (proj2 (Z.compare_lt_iff e (-52))) by lia.
Qed.

(** ** The sector of a wrapped height *)

(** The integral part of a positive number that is at most six. *)
Lemma to_int_floor_le_six (m : positive) (e : Z) :
  e <= -50 -> Zpos m < 2 ^ 53 -> (e = -50 -> Zpos m <= 3 * 2 ^ 51) ->
  0 <= Double.to_int (Double.floor (S754_finite false m e)) <= 6.
Proof.
  intros He Hm H6. unfold Double.floor.
  rewrite (proj2 (Z.leb_gt 0 e)) by lia. cbn [cond_Zopp].
  rewrite Z.shiftr_div_pow2 by lia.
  set (q := Zpos m / 2 ^ (- e)).
  assert (Hq : 0 <= q <= 6).
  { unfold q. split; [apply Z.div_pos; [lia|apply Z.pow_pos_nonneg; lia]|].
    destruct (Z.eq_dec e (-50)) as [->|Hne].
    - change (- -50) with 50. apply Z.div_le_upper_bound; [lia|].
      specialize (H6 eq_refl). lia.
    - assert (2 ^ 51 <= 2 ^ (- e)) by (apply Z.pow_le_mono_r; lia).
      assert (Zpos m / 2 ^ (- e) <= Zpos m / 2 ^ 51)
        by (apply Z.div_le_compat_l; lia).
      assert (Zpos m / 2 ^ 51 < 4) by (apply Z.div_lt_upper_bound; lia).
      lia. }
  clearbody q.
  assert (C : q = 0 \/ q = 1 \/ q = 2 \/ q = 3 \/ q = 4 \/ q = 5 \/ q = 6) by lia.
  destruct C as [->|[->|[->|[->|[->|[->| ->]]]]]]; vm_compute; split; discriminate.
Qed.

(** Six times a number of [[0, 1]] has its integral part in [[0, 6]]. *)
Lemma mul_six_sector (w : Double.t) :
  unit01 Double.prec Double.emax w = true ->
  0 <= Double.to_int (Double.floor (Double.mul w Double.six)) <= 6.
Proof.
  intros Hw. destruct w as [s|s| |[|] m e]; try discriminate Hw.
  - destruct s; vm_compute; split; discriminate.
  - apply unit01_inv in Hw as [Hb [He|E1]];
      [|rewrite E1; vm_compute; split; discriminate].
    destruct (unit01_digits m e Hb He) as [_ Hm].
    apply D[bounded_inv] in Hb as (_ & _ & Dm & Em & _).
    pose proof (digits2_bounds m) as [Lo _].
    set (dm := Zpos (digits2_pos m)) in *.
    assert (0 < dm) by (unfold dm; lia).
    unfold Double.mul, Double.six. cbn [SFmul xorb].
    set (M := (m * 6755399441055744)%positive).
    assert (HM : Zpos M = Zpos m * (3 * 2 ^ 51)) by (unfold M; lia).
    assert (P1 : 0 < 2 ^ (dm - 1)) by (apply Z.pow_pos_nonneg; lia).
    assert (HdLo : dm + 52 <= Zpos (digits2_pos M)).
    { replace (dm + 52) with (dm - 1 + 52 + 1) by lia.
      apply digits2_ge; [lia|]. rewrite HM, Z.pow_add_r by lia. nia. }
    assert (HdHi : Zpos (digits2_pos M) <= 106).
    { apply digits2_le; [lia|]. rewrite HM. change (2 ^ 106) with (2 ^ 53 * 2 ^ 53). nia. }
    set (dM := Zpos (digits2_pos M)) in *.
    destruct (D[bra_spec] false M (e + -50)) as (m2 & C & _ & Hm1 & R).
    { fold dM. double_consts. lia. }
    rewrite R. clear R. fold dM in C, Hm1 |- *.
    set (e1 := SpecFloat.fexp Double.prec Double.emax (dM + (e + -50))) in *.
    assert (He1 : e1 = Z.max (dM + e - 103) (-1074)) by (unfold e1; double_consts; lia).
    double_consts.
    assert (He50 : e1 <= -50) by lia.
    set (m1 := Zpos M / 2 ^ (e1 - (e + -50))) in *.
    destruct (Z.eqb_spec m2 (2 ^ 53)) as [Ec|Hnc].
    + assert (e1 <> -50).
      { intros E50. assert (e = -53) by lia. subst e.
        assert (Hm1' : m1 < 3 * 2 ^ 51).
        { unfold m1. rewrite E50. change (-50 - (-53 + -50)) with 53.
          apply Z.div_lt_upper_bound; [lia|]. rewrite HM. lia. }
        lia. }
      rewrite D[pack_pos] by (double_consts; lia).
      apply to_int_floor_le_six; [lia|reflexivity|intros _; vm_compute; discriminate].
    + destruct (Z.eq_dec m2 0) as [->|Hnz]; [vm_compute; split; discriminate|].
      rewrite D[pack_pos] by (double_consts; lia).
      apply to_int_floor_le_six; [lia|rewrite Z2Pos.id; lia|].
      intros E50. rewrite Z2Pos.id by lia.
      assert (e = -53) by lia. subst e.
      assert (Hm1' : m1 < 3 * 2 ^ 51).
      { unfold m1. rewrite E50. change (-50 - (-53 + -50)) with 53.
        apply Z.div_lt_upper_bound; [lia|]. rewrite HM. lia. }
      lia.
Qed.

(** A positive number below one is its own fractional part. *)
Lemma wrap_of_unit (m : positive) (e : Z) :
  bounded Double.prec Double.emax m e = true -> e < -52 ->
  wrap (S754_finite false m e) = S754_finite false m e.
Proof.
  intros Hb He. destruct (unit01_digits m e Hb He) as [_ Hm].
  unfold wrap, Double.floor. rewrite (proj2 (Z.leb_gt 0 e)) by lia.
  cbn [cond_Zopp]. rewrite Z.shiftr_div_pow2 by lia.
  assert (2 ^ 53 <= 2 ^ (- e)) by (apply Z.pow_le_mono_r; lia).
  rewrite Z.div_small by lia. reflexivity.
Qed.

(** An integer is its own [floor]. *)
Lemma floor_of_int (i : Z) :
  Z.abs i < 2 ^ 53 ->
  Double.floor (Double.of_int i) = Double.of_int i /\
  Double.finite (Double.of_int i) = true.
Proof.
  intros Hi. unfold Double.of_int.
  assert (H : forall (s : bool) (p : positive), Zpos p < 2 ^ 53 ->
    Double.floor (binary_round Double.prec Double.emax s p 0) =
      binary_normalize Double.prec Double.emax (cond_Zopp s (Zpos p)) 0 false /\
    Double.finite (binary_round Double.prec Double.emax s p 0) = true).
  { intros s p Hp. destruct (round_int s p Hp) as [R Hd]. cbv zeta in R, Hd.
    set (d := Zpos (digits2_pos p)) in *.
    assert (0 < d) by (unfold d; lia).
    rewrite R. split; [|reflexivity]. unfold Double.floor.
    assert (Pk : 0 < 2 ^ (53 - d)) by (apply Z.pow_pos_nonneg; lia).
    destruct (Z.leb_spec 0 (d - 53)) as [Hz|Hz].
    - assert (d = 53) by lia.
      rewrite <- R. now destruct s.
    - rewrite Z2Pos.id by lia. rewrite Z.shiftr_div_pow2 by lia.
      replace (- (d - 53)) with (53 - d) by lia.
      replace (cond_Zopp s (Zpos p * 2 ^ (53 - d)))
        with (cond_Zopp s (Zpos p) * 2 ^ (53 - d)) by (destruct s; cbn; lia).
      rewrite Z.div_mul by lia.
      destruct (Z.eqb_spec (cond_Zopp s (Zpos p)) 0) as [E0|_];
        [destruct s; cbn in E0; lia|reflexivity]. }
  destruct i as [|p|p].
  - split; reflexivity.
  - cbn [binary_normalize]. destruct (H false p) as [H1 H2]; [lia|]. now split.
  - cbn [binary_normalize]. destruct (H true p) as [H1 H2]; [lia|]. now split.
Qed.

(** ** What the markers hold after [readMap] *)

Section MarkerContents.

Variable log2 : Double.t -> Double.t.
Variable now : nat -> ros_time.

(** Every marker of the result is the marker found at that place after
    [resize], with the cubes of its level appended and its header
    rewritten. *)
Lemma readMap_lookup (srv srv' : OctomapServer) (tree : OcTree) (k : nat) (m : Marker.t) :
  readMap log2 now srv tree = Done srv' ->
  resize 16 Marker.default (m_occupiedCellsVis srv) !! k = Some m ->
  m_occupiedCellsVis srv' !! k =
  Some (finish now srv (getResolution tree) k
          (grow srv (z (getMetricMin tree)) (z (getMetricMax tree))
                (bucket log2 (getResolution tree) k (getOccupied tree)) m)).
Proof.
  intros E Hm.
  destruct (readMap_Done log2 now srv tree (readMap_inv log2 now srv tree srv' E))
    as (srv'' & E' & _ & K).
  rewrite E in E'. injection E' as <-. now rewrite K, Hm.
Qed.

Lemma readMap_length (srv srv' : OctomapServer) (tree : OcTree) :
  readMap log2 now srv tree = Done srv' ->
  length (m_occupiedCellsVis srv') = 16%nat.
Proof.
  intros E.
  destruct (readMap_Done log2 now srv tree (readMap_inv log2 now srv tree srv' E))
    as (srv'' & E' & L & _).
  rewrite E in E'. now injection E' as <-.
Qed.


Lemma lookup_resize_old (ms : list Marker.t) (k : nat) (m : Marker.t) :
  (k < 16)%nat -> ms !! k = Some m -> resize 16 Marker.default ms !! k = Some m.
Proof.
  intros Hk Hm. rewrite lookup_resize; [exact Hm|lia|].
  apply lookup_lt_Some in Hm. exact Hm.
Qed.

Lemma sum_indicator (f : nat -> nat) (j a n : nat) :
  sum_list (map (fun k => if decide (j = k) then S (f k) else f k) (seq a n)) =
  ((if decide (a <= j < a + n)%nat then 1 else 0) + sum_list (map f (seq a n)))%nat.
Proof.
  revert a. induction n as [|n IH]; intros a0.
  - cbn. destruct (decide _); [lia|reflexivity].
  - cbn [seq map].
    change (sum_list (?y :: ?l)) with (y + sum_list l)%nat. rewrite IH.
    repeat case_decide; lia.
Qed.

(** Every cube that passes the assertion lies in exactly one of the 16
    groups. *)
Lemma buckets_partition (lowestRes : Double.t) (cells : list OcTreeVolume) :
  Forall (in_range log2 lowestRes) cells ->
  sum_list (map (fun k => length (bucket log2 lowestRes k cells)) (seq 0 16)) =
  length cells.
Proof.
  induction 1 as [|it cells Hit _ IH].
  - reflexivity.
  - cbn [length]. rewrite <- IH.
    set (j := Z.to_nat (level log2 lowestRes it)).
    assert (Hj : (0 <= j < 0 + 16)%nat) by (unfold in_range in Hit; lia).
    transitivity
      (sum_list (map (fun k => if decide (j = k)
                               then S (length (bucket log2 lowestRes k cells))
                               else length (bucket log2 lowestRes k cells)) (seq 0 16))).
    + f_equal. apply map_ext. intros k. rewrite bucket_cons.
      destruct (decide (level log2 lowestRes it = Z.of_nat k)) as [Hk|Hk];
        destruct (decide (j = k)) as [Hjk|Hjk]; try reflexivity; exfalso.
      * apply Hjk. unfold j. rewrite Hk. apply Nat2Z.id.
      * apply Hk. unfold in_range in Hit. lia.
    + rewrite sum_indicator. destruct (decide _); [reflexivity|contradiction].
Qed.

Lemma visit_all_counts (srv : OctomapServer) (minZ maxZ lowestRes : Double.t)
    (cells : list OcTreeVolume) (ms ms' : list Marker.t) (n n' : Z) :
  0 <= n < 2 ^ 32 ->
  visit_all log2 srv minZ maxZ lowestRes (ms, n) cells = Done (ms', n') ->
  n' = (n + Z.of_nat (length cells)) mod 2 ^ 32.
Proof.
  revert ms n. induction cells as [|it cells IH]; intros ms n Hn E.
  - cbn in E. injection E as _ <-. cbn [length]. rewrite Z.add_0_r.
    symmetry. now apply Z.mod_small.
  - cbn [visit_all] in E.
    destruct (visit log2 srv minZ maxZ lowestRes (ms, n) it) as [[ms1 n1]|] eqn:E1;
      [|discriminate E].
    cbn [mbind outcome_bind] in E.
    assert (Hn1 : n1 = (n + 1) mod 2 ^ 32).
    { unfold visit in E1. destruct (assert _); [|discriminate E1].
      cbn [mbind outcome_bind] in E1. now injection E1 as _ <-. }
    apply IH in E; [|rewrite Hn1; apply Z.mod_pos_bound; lia].
    rewrite E, Hn1. cbn [length]. rewrite Zplus_mod_idemp_l. f_equal. lia.
Qed.

(** X1: after [readMap] has run on a server without markers, marker [k]
    holds the centres of exactly the cubes whose level index is [k], in
    the order of the list of occupied cubes, and -- when height colouring
    is on -- their colours in the same order; when it is off, no colour at
    all. *)
Theorem readMap_files_cubes_by_level
    (srv srv' : OctomapServer) (tree : OcTree) (k : nat) :
  m_occupiedCellsVis srv = [] ->
  readMap log2 now srv tree = Done srv' ->
  (k < 16)%nat ->
  exists m,
    m_occupiedCellsVis srv' !! k = Some m /\
    Marker.points m =
      map center (bucket log2 (getResolution tree) k (getOccupied tree)) /\
    Marker.colors m =
      if m_useHeightMap srv
      then map (colorOf srv (z (getMetricMin tree)) (z (getMetricMax tree)))
               (bucket log2 (getResolution tree) k (getOccupied tree))
      else [].
Proof.
  intros Hnil E Hk. eexists. split.
  - apply (readMap_lookup srv srv' tree k Marker.default E).
    rewrite Hnil. now apply lookup_resize_fresh.
  - split; reflexivity.
Qed.

(** X2: [readMap] drops no cube and files none twice: on a server without
    markers, the 16 markers together hold as many points as the tree has
    occupied cubes; and the counter [numVoxels] of the first loop ends at
    that number (modulo [2^32], the counter being [unsigned]). *)
Theorem readMap_keeps_every_cube
    (srv srv' : OctomapServer) (tree : OcTree) :
  m_occupiedCellsVis srv = [] ->
  readMap log2 now srv tree = Done srv' ->
  total_points (m_occupiedCellsVis srv') = length (getOccupied tree) /\
  exists ms,
    visit_all log2 srv (z (getMetricMin tree)) (z (getMetricMax tree))
      (getResolution tree) (resize 16 Marker.default [], 0) (getOccupied tree) =
    Done (ms, Z.of_nat (length (getOccupied tree)) mod 2 ^ 32).
Proof.
  intros Hnil E. split.
  - rewrite <- (buckets_partition (getResolution tree) (getOccupied tree))
      by exact (readMap_inv log2 now srv tree srv' E).
    unfold total_points. f_equal. apply list_eq. intros k.
    rewrite !list_lookup_fmap.
    destruct (decide (k < 16)%nat) as [Hk|Hk].
    + rewrite (readMap_lookup srv srv' tree k Marker.default E)
        by (rewrite Hnil; now apply lookup_resize_fresh).
      rewrite lookup_seq_lt by exact Hk. cbn. now rewrite length_map.
    + rewrite (lookup_ge_None_2 (m_occupiedCellsVis srv'))
        by (rewrite (readMap_length srv srv' tree E); lia).
      rewrite (lookup_ge_None_2 (seq 0 16)) by (rewrite length_seq; lia).
      reflexivity.
  - unfold readMap in E. rewrite Hnil in E.
    destruct (visit_all _ _ _ _ _ _ _) as [[ms n]|] eqn:E1; [|discriminate E].
    exists ms. f_equal. f_equal.
    now apply visit_all_counts in E1.
Qed.

(** X3: [readMap] never clears a marker.  Run on a server that already
    holds markers, it appends: the points and colours that one of the
    first 16 markers held before are a prefix of what it holds after, and
    what follows them are the cubes of its level. *)
Theorem readMap_appends_to_markers
    (srv srv' : OctomapServer) (tree : OcTree) (k : nat) (m : Marker.t) :
  readMap log2 now srv tree = Done srv' ->
  (k < 16)%nat ->
  m_occupiedCellsVis srv !! k = Some m ->
  exists m',
    m_occupiedCellsVis srv' !! k = Some m' /\
    Marker.points m' =
      Marker.points m ++
      map center (bucket log2 (getResolution tree) k (getOccupied tree)) /\
    Marker.colors m' =
      Marker.colors m ++
      (if m_useHeightMap srv
       then map (colorOf srv (z (getMetricMin tree)) (z (getMetricMax tree)))
                (bucket log2 (getResolution tree) k (getOccupied tree))
       else []).
Proof.
  intros E Hk Hm. eexists. split.
  - apply (readMap_lookup srv srv' tree k m E). now apply lookup_resize_old.
  - split; reflexivity.
Qed.

End MarkerContents.

Lemma readMap_files_cubes_by_level_witness :
  exists srv' m,
    readMap ilog2 clock default_server sample_tree = Done srv' /\
    m_occupiedCellsVis srv' !! 1%nat = Some m /\
    Marker.points m =
      map center (bucket ilog2 (getResolution sample_tree) 1 (getOccupied sample_tree)) /\
    Marker.colors m =
      if m_useHeightMap default_server
      then map (colorOf default_server (z (getMetricMin sample_tree))
                        (z (getMetricMax sample_tree)))
               (bucket ilog2 (getResolution sample_tree) 1 (getOccupied sample_tree))
      else [].
Proof.
  destruct (readMap ilog2 clock default_server sample_tree) as [srv'|] eqn:E.
  - destruct (readMap_files_cubes_by_level ilog2 clock default_server srv' sample_tree 1
                eq_refl E) as (m & H); [lia|].
    exists srv', m. split; [reflexivity|exact H].
  - exfalso. vm_compute in E. discriminate E.
Defined.

Lemma readMap_keeps_every_cube_witness :
  exists srv',
    readMap ilog2 clock default_server sample_tree = Done srv' /\
    total_points (m_occupiedCellsVis srv') = 4%nat.
Proof.
  destruct (readMap ilog2 clock default_server sample_tree) as [srv'|] eqn:E.
  - exists srv'. split; [reflexivity|].
    exact (proj1 (readMap_keeps_every_cube ilog2 clock default_server srv' sample_tree
                    eq_refl E)).
  - exfalso. vm_compute in E. discriminate E.
Defined.

(** Reading the sample tree a second time doubles marker 0. *)
Lemma readMap_appends_to_markers_witness :
  exists srv1 srv2 m1 m2,
    readMap ilog2 clock default_server sample_tree = Done srv1 /\
    readMap ilog2 clock srv1 sample_tree = Done srv2 /\
    m_occupiedCellsVis srv1 !! 0%nat = Some m1 /\
    m_occupiedCellsVis srv2 !! 0%nat = Some m2 /\
    Marker.points m2 =
      Marker.points m1 ++
      map center (bucket ilog2 (getResolution sample_tree) 0 (getOccupied sample_tree)).
Proof.
  destruct (readMap ilog2 clock default_server sample_tree) as [srv1|] eqn:E1;
    [|exfalso; vm_compute in E1; discriminate E1].
  destruct (readMap ilog2 clock srv1 sample_tree) as [srv2|] eqn:E2.
  - destruct (m_occupiedCellsVis srv1 !! 0%nat) as [m1|] eqn:H1.
    + destruct (readMap_appends_to_markers ilog2 clock srv1 srv2 sample_tree 0 m1 E2)
        as (m2 & H2 & Hp & _); [lia|exact H1|].
      exists srv1, srv2, m1, m2. repeat split; assumption || reflexivity.
    + exfalso. vm_compute in E1. injection E1 as <-. discriminate H1.
  - exfalso. vm_compute in E1. injection E1 as <-. vm_compute in E2. discriminate E2.
Defined.

(** ** Cubes the assertion was not written for *)

Lemma to_int_round_negative (j : Z) :
  -16 <= j < 0 ->
  Double.to_int (Double.add (Double.of_int j) Double.half) = j + 1.
Proof.
  intros Hj.
  assert (H : exists k : nat, (k < 16)%nat /\ j = - Z.of_nat k - 1).
  { exists (Z.to_nat (- j - 1)). lia. }
  destruct H as (k & Hk & ->).
  do 16 (destruct k as [|k]; [vm_compute; reflexivity|]). lia.
Qed.

(** X4: the index [int(log2(ratio) + 0.5)] is truncated toward zero, so
    for a negative logarithm it is one above the rounded value.  A cube
    whose ratio has the binary logarithm [j], for a negative integer [j]
    (down to -16), gets the index [j + 1]: a cube of half the resolution
    ([j = -1]) gets index 0, passes the assertion and is filed with the
    cubes of the finest level; only from a quarter of the resolution on
    does the assertion stop the run. *)
Theorem cube_below_resolution
    (log2 : Double.t -> Double.t) (srv : OctomapServer)
    (minZ maxZ lowestRes : Double.t) (ms : list Marker.t) (n : Z)
    (it : OcTreeVolume) (j : Z) :
  -16 <= j < 0 ->
  log2 (Double.div (second it) lowestRes) = Double.of_int j ->
  level log2 lowestRes it = j + 1 /\
  (j = -1 -> ms <> [] ->
     exists ms',
       visit log2 srv minZ maxZ lowestRes (ms, n) it = Done (ms', (n + 1) mod 2 ^ 32) /\
       ms' !! 0%nat = grow srv minZ maxZ [it] <$> ms !! 0%nat) /\
  (j < -1 -> visit log2 srv minZ maxZ lowestRes (ms, n) it = AssertionFailed).
Proof.
  intros Hj Hlog.
  assert (Hlevel : level log2 lowestRes it = j + 1).
  { unfold level. rewrite Hlog. now apply to_int_round_negative. }
  split; [exact Hlevel|]. split.
  - intros -> Hms.
    assert (Hok : level_ok ms (level log2 lowestRes it) = true).
    { apply level_ok_spec. rewrite Hlevel. split; [lia|].
      destruct ms; [contradiction|cbn; lia]. }
    destruct (visit_Done log2 srv minZ maxZ lowestRes ms n it Hok)
      as (ms' & E & _ & K & _).
    exists ms'. split; [exact E|]. rewrite Hlevel in K. exact K.
  - intros Hlt. apply visit_fails. unfold level_ok. rewrite Hlevel.
    apply andb_false_intro1. apply Z.leb_gt. lia.
Qed.

Lemma cube_below_resolution_witness :
  level ilog2 d0_1 half_cube = -1 + 1 /\
  (exists ms',
     visit ilog2 default_server Double.zero d10 d0_1
       (resize 16 Marker.default [], 0) half_cube = Done (ms', (0 + 1) mod 2 ^ 32) /\
     ms' !! 0%nat =
       grow default_server Double.zero d10 [half_cube] <$>
       resize 16 Marker.default [] !! 0%nat) /\
  level ilog2 d0_1 quarter_cube = -2 + 1 /\
  visit ilog2 default_server Double.zero d10 d0_1
    (resize 16 Marker.default [], 0) quarter_cube = AssertionFailed.
Proof.
  destruct (cube_below_resolution ilog2 default_server Double.zero d10 d0_1
              (resize 16 Marker.default []) 0 half_cube (-1))
    as (H1 & H2 & _); [lia|vm_compute; reflexivity|].
  destruct (cube_below_resolution ilog2 default_server Double.zero d10 d0_1
              (resize 16 Marker.default []) 0 quarter_cube (-2))
    as (H3 & _ & H4); [lia|vm_compute; reflexivity|].
  split; [exact H1|]. split; [apply H2; [reflexivity|discriminate]|].
  split; [exact H3|]. apply H4. lia.
Defined.

Lemma level_without_finite_logarithm
    (log2 : Double.t -> Double.t) (lowestRes : Double.t) (it : OcTreeVolume) :
  Double.finite (log2 (Double.div (second it) lowestRes)) = false ->
  level log2 lowestRes it = Double.INT_MIN.
Proof.
  intros Hlog. unfold level.
  destruct (log2 (Double.div (second it) lowestRes)) as [s|[|]| |s m e];
    try discriminate Hlog; reflexivity.
Qed.

(** X5: a cube whose ratio has no finite logarithm -- the C library
    returns an infinity or a NaN for a ratio that is zero, negative,
    infinite or a NaN -- gets the index [INT_MIN] from the conversion to
    [int] and fails the assertion, whatever the markers are. *)
Theorem cube_without_finite_logarithm_aborts
    (log2 : Double.t -> Double.t) (srv : OctomapServer)
    (minZ maxZ lowestRes : Double.t) (ms : list Marker.t) (n : Z)
    (it : OcTreeVolume) :
  Double.finite (log2 (Double.div (second it) lowestRes)) = false ->
  level log2 lowestRes it = Double.INT_MIN /\
  visit log2 srv minZ maxZ lowestRes (ms, n) it = AssertionFailed.
Proof.
  intros Hlog.
  pose proof (level_without_finite_logarithm log2 lowestRes it Hlog) as Hlevel.
  split; [exact Hlevel|].
  apply visit_fails. unfold level_ok. rewrite Hlevel. reflexivity.
Qed.

Lemma cube_without_finite_logarithm_witness :
  level ilog2 Double.zero (cube Double.zero Double.zero Double.zero d0_1) =
    Double.INT_MIN /\
  visit ilog2 default_server Double.zero d10 Double.zero
    (resize 16 Marker.default [], 0)
    (cube Double.zero Double.zero Double.zero d0_1) = AssertionFailed.
Proof.
  apply (cube_without_finite_logarithm_aborts ilog2 default_server Double.zero d10
           Double.zero (resize 16 Marker.default []) 0
           (cube Double.zero Double.zero Double.zero d0_1)).
  reflexivity.
Defined.

Lemma div_by_zero_not_finite (d : Double.t) (s : bool) :
  Double.finite (Double.div d (S754_zero s)) = false.
Proof. now destruct d. Qed.

(** X6: a tree whose resolution is zero and which has an occupied cube
    stops the run at the first cube: every ratio is an infinity or a NaN,
    and so is its logarithm. *)
Theorem zero_resolution_aborts
    (log2 : Double.t -> Double.t) (now : nat -> ros_time)
    (srv : OctomapServer) (tree : OcTree) (s : bool) :
  (forall d, Double.finite d = false -> Double.finite (log2 d) = false) ->
  getResolution tree = S754_zero s ->
  getOccupied tree <> [] ->
  readMap log2 now srv tree = AssertionFailed.
Proof.
  intros Hlog Hres Hocc.
  destruct (getOccupied tree) as [|it rest] eqn:E; [contradiction|].
  apply (readMap_fails log2 now srv tree [] rest it E); [constructor|].
  unfold in_range. rewrite level_without_finite_logarithm.
  - unfold Double.INT_MIN. lia.
  - apply Hlog. rewrite Hres. apply div_by_zero_not_finite.
Qed.

Lemma zero_resolution_witness :
  readMap ilog2 clock default_server zero_res_tree = AssertionFailed.
Proof.
  apply (zero_resolution_aborts ilog2 clock default_server zero_res_tree false).
  - intros d Hd. destruct d as [s|[|]| |s m e]; try discriminate Hd; reflexivity.
  - reflexivity.
  - discriminate.
Defined.

(** ** The colour wheel *)

(** The colour of a well-formed height: the fallback colour when the
    sector index is none of 0..6, and else the row of the sector table,
    with a number [n] of [[0, 1]]. *)
Lemma heightMapColor_sector (h : Double.t) :
  Double.valid h = true ->
  match sector (Double.to_int (Double.floor (Double.mul (wrap h) Double.six))) with
  | Some (c1, c2, c3) =>
      exists n, unit01 Double.prec Double.emax n = true /\
        heightMapColor h =
        rgba (ingredient n c1) (ingredient n c2) (ingredient n c3) Double.one
  | None => heightMapColor h = fallbackColor
  end.
Proof.
  intros Hv. rewrite heightMapColor_colorForHeight by assumption.
  unfold colorForHeight.
  set (h6 := Double.mul (wrap h) Double.six).
  assert (Hh6 : Double.valid h6 = true).
  { apply mul_valid; [|reflexivity]. apply sub_valid; [assumption|].
    now apply floor_valid. }
  cbv zeta. fold (fraction h6 (Double.to_int (Double.floor h6))).
  destruct (sector _) as [[[c1 c2] c3]|] eqn:Es; [|reflexivity].
  apply sector_inv in Es.
  pose proof (fraction_unit h6 Hh6 (proj1 Es)) as Hf.
  apply one_minus_unit in Hf.
  eexists. split; [exact Hf|]. reflexivity.
Qed.

Lemma ingredient_unit (n : Double.t) (c : channel) :
  unit01 Double.prec Double.emax n = true ->
  in_unit_interval (Single.of_double (ingredient n c)).
Proof.
  intros Hn. destruct c; cbn [ingredient];
    [split; reflexivity|now apply narrow_in_unit|split; reflexivity].
Qed.

Lemma heightMapColor_range (h : Double.t) :
  Double.valid h = true ->
  in_unit_interval (r (heightMapColor h)) /\
  in_unit_interval (g (heightMapColor h)) /\
  in_unit_interval (b (heightMapColor h)) /\
  a (heightMapColor h) = Single.one.
Proof.
  intros Hv. pose proof (heightMapColor_sector h Hv) as H.
  destruct (sector _) as [[[c1 c2] c3]|].
  - destruct H as (n & Hn & ->). unfold rgba. cbn [r g b a].
    repeat split; try apply (ingredient_unit n _ Hn).
  - rewrite H. repeat split; reflexivity.
Qed.

(** Every row of the sector table holds the value and the minimum. *)
Lemma sector_rows (i : Z) :
  0 <= i <= 6 ->
  exists c1 c2 c3,
    sector i = Some (c1, c2, c3) /\
    (c1 = chV \/ c2 = chV \/ c3 = chV) /\ (c1 = chM \/ c2 = chM \/ c3 = chM).
Proof.
  intros Hi.
  assert (C : i = 0 \/ i = 1 \/ i = 2 \/ i = 3 \/ i = 4 \/ i = 5 \/ i = 6) by lia.
  destruct C as [->|[->|[->|[->|[->|[->| ->]]]]]];
    do 3 eexists; (split; [reflexivity|]); split; auto.
Qed.

(** For a finite height the sector index is one of 0..6: the colour has
    a component that is one and a component that is zero. *)
Lemma heightMapColor_finite (h : Double.t) :
  Double.valid h = true -> Double.finite h = true ->
  (r (heightMapColor h) = Single.one \/ g (heightMapColor h) = Single.one \/
   b (heightMapColor h) = Single.one) /\
  (r (heightMapColor h) = Single.zero \/ g (heightMapColor h) = Single.zero \/
   b (heightMapColor h) = Single.zero).
Proof.
  intros Hv Hf. pose proof (heightMapColor_sector h Hv) as H.
  destruct (sector_rows _ (mul_six_sector (wrap h) (wrap_unit h Hv Hf)))
    as (c1 & c2 & c3 & Es & HV & HM).
  rewrite Es in H. destruct H as (n & _ & ->). unfold rgba. cbn [r g b].
  split.
  - destruct HV as [->|[->| ->]]; auto.
  - destruct HM as [->|[->| ->]]; auto.
Qed.

(** X8: the branch for an impossible sector is taken for the heights
    that are no numbers, and for no other: the colour of a well-formed
    height is the fallback colour [(1, 0.5, 0.5, 1)] exactly when the
    height is an infinity or a NaN. *)
Theorem heightMapColor_fallback_iff_not_finite (h : Double.t) :
  Double.valid h = true ->
  heightMapColor h = fallbackColor <-> Double.finite h = false.
Proof.
  intros Hv. split.
  - intros E. destruct (Double.finite h) eqn:Hf; [|reflexivity]. exfalso.
    destruct (heightMapColor_finite h Hv Hf) as [_ H0]. rewrite E in H0.
    destruct H0 as [H|[H|H]]; discriminate H.
  - intros Hf. destruct h as [s|[|]| |s m e]; try discriminate Hf; reflexivity.
Qed.

Lemma heightMapColor_fallback_witness :
  heightMapColor (S754_infinity false) = fallbackColor /\
  heightMapColor d0_8 <> fallbackColor.
Proof.
  split.
  - apply (heightMapColor_fallback_iff_not_finite (S754_infinity false)); reflexivity.
  - intros E. apply (heightMapColor_fallback_iff_not_finite d0_8) in E;
      [discriminate E|reflexivity].
Defined.

(** X9: the colour of a finite height is a pure hue: one of red, green
    and blue is exactly one and another is exactly zero. *)
Theorem heightMapColor_is_pure_hue (h : Double.t) :
  Double.valid h = true -> Double.finite h = true ->
  (r (heightMapColor h) = Single.one \/ g (heightMapColor h) = Single.one \/
   b (heightMapColor h) = Single.one) /\
  (r (heightMapColor h) = Single.zero \/ g (heightMapColor h) = Single.zero \/
   b (heightMapColor h) = Single.zero).
Proof. apply heightMapColor_finite. Qed.

Lemma heightMapColor_is_pure_hue_witness :
  (r (heightMapColor d0_8) = Single.one \/ g (heightMapColor d0_8) = Single.one \/
   b (heightMapColor d0_8) = Single.one) /\
  (r (heightMapColor d0_8) = Single.zero \/ g (heightMapColor d0_8) = Single.zero \/
   b (heightMapColor d0_8) = Single.zero).
Proof. apply (heightMapColor_is_pure_hue d0_8); reflexivity. Defined.

(** X10: a height that is an integral value gets the colour red.  That
    holds for every integer below [2^53] in absolute value, and for every
    finite height from [2^52] on, which has no fractional digits left. *)
Theorem heightMapColor_of_integral_height :
  (forall h : Double.t,
      Double.finite h = true -> Double.floor h = h -> heightMapColor h = red) /\
  (forall i : Z, Z.abs i < 2 ^ 53 -> heightMapColor (Double.of_int i) = red) /\
  (forall (s : bool) (m : positive) (e : Z),
      0 <= e -> heightMapColor (S754_finite s m e) = red).
Proof.
  assert (H : forall h : Double.t,
      Double.finite h = true -> Double.floor h = h -> heightMapColor h = red).
  { intros h Hf Hfl. rewrite (heightMapColor_wrap Double.zero h); [reflexivity|].
    unfold wrap. rewrite Hfl. now rewrite sub_self. }
  split; [exact H|]. split.
  - intros i Hi. destruct (floor_of_int i Hi) as [Hfl Hf]. now apply H.
  - intros s m e He. apply H; [reflexivity|].
    unfold Double.floor. now rewrite (proj2 (Z.leb_le 0 e)).
Qed.

Lemma heightMapColor_of_integral_height_witness :
  heightMapColor d5 = red /\ heightMapColor (Double.of_int (-3)) = red.
Proof.
  destruct heightMapColor_of_integral_height as (H1 & H2 & _). split.
  - apply (H1 d5); reflexivity.
  - apply (H2 (-3)). reflexivity.
Defined.

(** X11: the colour depends on the height through its fractional part
    only, and taking the fractional part beforehand changes nothing: for
    every finite height [h], the colour of [h - floor(h)] is the colour
    of [h], also where that difference is rounded to one. *)
Theorem heightMapColor_of_wrapped_height (h : Double.t) :
  Double.valid h = true -> Double.finite h = true ->
  heightMapColor (wrap h) = heightMapColor h.
Proof.
  intros Hv Hf. pose proof (wrap_unit h Hv Hf) as Hu.
  assert (Hc : forall w, wrap h = w -> wrap w = w \/
                 heightMapColor w = heightMapColor Double.zero /\
                 (w = S754_zero true \/ w = Double.zero \/ w = Double.one)).
  { intros w Hw. rewrite Hw in Hu.
    destruct w as [[|]|sw| |[|] m e]; try discriminate Hu.
    - right. split; [reflexivity|]. now left.
    - left. reflexivity.
    - apply unit01_inv in Hu as [Hb [He|E1]].
      + left. now apply wrap_of_unit.
      + right. rewrite E1. split; [reflexivity|]. right. now right. }
  destruct (Hc (wrap h) eq_refl) as [Hw|[Hz Hcase]].
  - now apply heightMapColor_wrap.
  - rewrite Hz. symmetry.
    unfold heightMapColor at 1. fold (wrap h).
    destruct Hcase as [->|[->| ->]]; reflexivity.
Qed.

Lemma heightMapColor_of_wrapped_height_witness :
  wrap tiny_negative = Double.one /\
  heightMapColor (wrap tiny_negative) = heightMapColor tiny_negative.
Proof.
  split; [reflexivity|].
  apply (heightMapColor_of_wrapped_height tiny_negative); reflexivity.
Defined.

(** ** The height fraction and the colours in the markers *)

Lemma clamp_valid (d : Double.t) :
  Double.valid d = true ->
  Double.valid (Double.min (Double.max d Double.zero) Double.one) = true.
Proof.
  intros Hv. unfold Double.min, Double.max.
  destruct (Double.ltb d Double.zero);
    destruct (Double.ltb Double.one _); try reflexivity; exact Hv.
Qed.

Lemma heightFraction_valid (colorFactor minZ maxZ zc : Double.t) :
  Double.valid colorFactor = true ->
  Double.valid (heightFraction colorFactor minZ maxZ zc) = true.
Proof.
  intros Hc. unfold heightFraction. apply mul_valid; [|exact Hc].
  apply sub_valid; [reflexivity|]. apply clamp_valid, div_valid.
Qed.

(** X12: the height fraction handed to the colour function is a number
    between 0 and 1 whenever the colour factor is, unless the ratio
    [(z - minZ) / (maxZ - minZ)] is a NaN (as [0 / 0] is); then the
    fraction is a NaN too. *)
Theorem heightFraction_in_unit_range (colorFactor minZ maxZ zc : Double.t) :
  Double.valid colorFactor = true -> in_unit_range colorFactor ->
  (Double.div (Double.sub zc minZ) (Double.sub maxZ minZ) = S754_nan ->
     heightFraction colorFactor minZ maxZ zc = S754_nan) /\
  (Double.div (Double.sub zc minZ) (Double.sub maxZ minZ) <> S754_nan ->
     in_unit_range (heightFraction colorFactor minZ maxZ zc)).
Proof.
  intros Hv Hr. unfold heightFraction.
  pose proof (clamp_unit _ (div_valid (Double.sub zc minZ) (Double.sub maxZ minZ))) as H.
  split.
  - intros E. rewrite E in *. reflexivity.
  - intros Hn. apply range_of_unit01. apply mul_unit.
    + apply one_minus_unit.
      destruct (Double.div _ _); try exact H. now contradiction Hn.
    + now apply unit01_of_range.
Qed.

Lemma heightFraction_in_unit_range_witness :
  in_unit_range (heightFraction d0_8 Double.zero d10 d5) /\
  heightFraction d0_8 d5 d5 d5 = S754_nan.
Proof.
  destruct (heightFraction_in_unit_range d0_8 Double.zero d10 d5) as [_ H1];
    [reflexivity|split; reflexivity|].
  destruct (heightFraction_in_unit_range d0_8 d5 d5 d5) as [H2 _];
    [reflexivity|split; reflexivity|].
  split; [apply H1; vm_compute; discriminate|apply H2; reflexivity].
Defined.

(** X13: whatever the tree holds, every colour that [readMap] puts in a
    marker has its red, green and blue components between 0 and 1 and
    the alpha component 1; the colour factor only has to be a
    well-formed [double]. *)
Theorem readMap_colors_in_unit_interval
    (log2 : Double.t -> Double.t) (now : nat -> ros_time)
    (srv srv' : OctomapServer) (tree : OcTree)
    (k j : nat) (m : Marker.t) (c : ColorRGBA) :
  m_occupiedCellsVis srv = [] ->
  Double.valid (m_colorFactor srv) = true ->
  readMap log2 now srv tree = Done srv' ->
  m_occupiedCellsVis srv' !! k = Some m ->
  Marker.colors m !! j = Some c ->
  in_unit_interval (r c) /\ in_unit_interval (g c) /\ in_unit_interval (b c) /\
  a c = Single.one.
Proof.
  intros Hnil Hv E Hm Hc.
  assert (Hk : (k < 16)%nat).
  { apply lookup_lt_Some in Hm. now rewrite (readMap_length log2 now srv srv' tree E) in Hm. }
  rewrite (readMap_fresh log2 now srv tree srv' k Hnil E Hk) in Hm.
  injection Hm as <-. cbn [finish grow Marker.colors Marker.default app] in Hc.
  destruct (m_useHeightMap srv); [|discriminate Hc].
  rewrite list_lookup_fmap in Hc.
  destruct (bucket _ _ _ _ !! j) as [it|]; [|discriminate Hc].
  injection Hc as <-. unfold colorOf. apply heightMapColor_range. now apply heightFraction_valid.
Qed.

Lemma readMap_colors_witness :
  exists srv' m c,
    readMap ilog2 clock default_server level_tree = Done srv' /\
    m_occupiedCellsVis srv' !! 0%nat = Some m /\
    Marker.colors m !! 1%nat = Some c /\
    in_unit_interval (r c) /\ in_unit_interval (g c) /\ in_unit_interval (b c) /\
    a c = Single.one.
Proof.
  destruct (readMap ilog2 clock default_server level_tree) as [srv'|] eqn:E;
    [|exfalso; vm_compute in E; discriminate E].
  destruct (m_occupiedCellsVis srv' !! 0%nat) as [m|] eqn:Hm;
    [|exfalso; vm_compute in E; injection E as <-; discriminate Hm].
  destruct (Marker.colors m !! 1%nat) as [c|] eqn:Hc;
    [|exfalso; vm_compute in E; injection E as <-; vm_compute in Hm;
      injection Hm as <-; discriminate Hc].
  exists srv', m, c. split; [reflexivity|]. split; [exact Hm|].
  split; [exact Hc|].
  apply (readMap_colors_in_unit_interval ilog2 clock default_server srv' level_tree
           0 1 m c); [reflexivity|reflexivity|exact E|exact Hm|exact Hc].
Defined.

(** ** The constructor *)


